(** * Dice-Game: a shallow embedding of [game.js] and its specification

    The program is a Node.js script: a [Dice] class, a [FairRandom] class
    (commit/reveal with HMAC-SHA3-256) and a [DiceGame] class driven by
    [readline] callbacks.  The embedding has three layers:

    - [JS]: the JavaScript built-ins the program calls on strings and
      numbers ([split], [trim], [includes], [parseInt], [parseFloat],
      [isNaN], [Number.isInteger], [toString], [splice], [%]);
    - the game: the object state of [DiceGame] together with the pending
      [readline] question, threaded through a state-and-exception monad;
    - the properties of the specification, stated on that model. *)

From Stdlib Require Import ZArith NArith QArith List Bool Lia String Ascii.
From Stdlib.Strings Require Import Byte.
Import ListNotations.
Local Open Scope Z_scope.

(** ** JavaScript built-ins *)

Module JS.

(** A JavaScript string is a sequence of UTF-16 code units. *)
Definition jsstring := list N.

Definition lit (s : string) : jsstring :=
  List.map N_of_ascii (list_ascii_of_string s).

Fixpoint str_eqb (a b : jsstring) : bool :=
  match a, b with
  | [], [] => true
  | x :: a', y :: b' => N.eqb x y && str_eqb a' b'
  | _, _ => false
  end.

(** Code units used by the program and by the numeric grammars. *)
Definition c_comma : N := 44.
Definition c_plus  : N := 43.
Definition c_minus : N := 45.
Definition c_dot   : N := 46.
Definition c_zero  : N := 48.

(** [WhiteSpace] and [LineTerminator] of ECMA-262, the characters removed by
    [trim] and skipped by [parseInt], [parseFloat] and [Number]. *)
Definition is_white (c : N) : bool :=
  match c with
  | 9 | 10 | 11 | 12 | 13 | 32 | 160 | 5760 | 8232 | 8233 | 8239 | 8287
  | 12288 | 65279 => true
  | _ => (8192 <=? c) && (c <=? 8202)
  end%N.

Definition is_digit (c : N) : bool := ((48 <=? c) && (c <=? 57))%N.

Definition is_hex_digit (c : N) : bool :=
  (is_digit c || ((97 <=? c) && (c <=? 102)) || ((65 <=? c) && (c <=? 70)))%N.

Definition digit_val (c : N) : Z := Z.of_N c - 48.

Definition hex_digit_val (c : N) : Z :=
  if is_digit c then Z.of_N c - 48
  else if (97 <=? c)%N then Z.of_N c - 87
  else Z.of_N c - 55.

Fixpoint trim_start (s : jsstring) : jsstring :=
  match s with
  | c :: r => if is_white c then trim_start r else s
  | [] => []
  end.

Definition trim_end (s : jsstring) : jsstring := rev (trim_start (rev s)).

(** [String.prototype.trim] *)
Definition trim (s : jsstring) : jsstring := trim_end (trim_start s).

(** [s.includes(',')] *)
Definition includes (c : N) (s : jsstring) : bool := existsb (N.eqb c) s.

(** [s.split(',')]: the pieces between separators; never empty. *)
Fixpoint split (sep : N) (s : jsstring) : list jsstring :=
  match s with
  | [] => [[]]
  | c :: r =>
      if N.eqb c sep then [] :: split sep r
      else match split sep r with
           | p :: ps => (c :: p) :: ps
           | [] => [[c]]
           end
  end.

Fixpoint starts_with (p s : jsstring) : bool :=
  match p, s with
  | [], _ => true
  | x :: p', y :: s' => N.eqb x y && starts_with p' s'
  | _ :: _, [] => false
  end.

(** The longest prefix of characters satisfying [f], and the rest. *)
Fixpoint span (f : N -> bool) (s : jsstring) : jsstring * jsstring :=
  match s with
  | c :: r => if f c then let (a, b) := span f r in (c :: a, b) else ([], s)
  | [] => ([], [])
  end.

(** The mathematical value of a digit sequence, most significant first. *)
Definition digits_value (radix : Z) (val : N -> Z) (ds : jsstring) : Z :=
  fold_left (fun acc c => radix * acc + val c) ds 0.

(** *** Numbers

    A Number is an IEEE-754 binary64 value.  Finite values are carried as the
    rational they denote, in lowest terms; [-0] is not told apart from [0],
    which no operation of the program observes. *)
Inductive number :=
| NaN
| Infinity (negative : bool)
| Finite (q : Q).

Definition of_Z (z : Z) : number := Finite (inject_Z z).

(** [floor (log2 (n/d))] for positive [n], [d]. *)
Definition binade (n d : Z) : Z :=
  let e0 := Z.log2 n - Z.log2 d in
  if 0 <=? e0
  then (if d * 2 ^ e0 <=? n then e0 else e0 - 1)
  else (if d <=? n * 2 ^ (- e0) then e0 else e0 - 1).

Definition round_half_even (num den : Z) : Z :=
  let q := num / den in
  match 2 * (num mod den) ?= den with
  | Lt => q
  | Gt => q + 1
  | Eq => if Z.even q then q else q + 1
  end.

(** Round the non-negative rational [n/d] to the nearest binary64 value, ties
    to even: [Some (m, e)] is the double [m * 2^e] with [m <= 2^53]
    (subnormals have [e = -1074]); [None] is overflow to infinity. *)
Definition round_magnitude (n d : Z) : option (Z * Z) :=
  if n =? 0 then Some (0, 0)
  else
    let e := Z.max (binade n d - 52) (-1074) in
    let m := if 0 <=? e then round_half_even n (d * 2 ^ e)
             else round_half_even (n * 2 ^ (- e)) d in
    if (0 <=? e) && (2 ^ 1024 <=? m * 2 ^ e) then None else Some (m, e).

Definition make_number (negative : bool) (n d : Z) : number :=
  match round_magnitude n d with
  | None => Infinity negative
  | Some (m, e) =>
      let s := if negative then -1 else 1 in
      if 0 <=? e then Finite (Qmake (s * m * 2 ^ e) 1)
      else Finite (Qred (Qmake (s * m) (Z.to_pos (2 ^ (- e)))))
  end.

(** [Math.floor] of the double nearest to the non-negative rational [n/d];
    [None] is infinity. *)
Definition floor_rounded (n d : Z) : option Z :=
  match round_magnitude n d with
  | Some (m, e) => Some (if 0 <=? e then m * 2 ^ e else m / 2 ^ (- e))
  | None => None
  end.

(** The quotient [a / b] of two integral Numbers, [a] not negative and [b]
    positive, and the product [x * k] of a Number and a positive integer
    constant; each result is rounded to the nearest double. *)
Definition div_Z (a b : Z) : number := make_number false a b.

Definition mul_Z (x : number) (k : Z) : number :=
  match x with
  | Finite q => make_number (Qnum q <? 0) (Z.abs (Qnum q) * k) (Zpos (Qden q))
  | other => other
  end.

(** [Number.isInteger] *)
Definition Number_isInteger (x : number) : bool :=
  match x with
  | Finite q => Qnum q mod Zpos (Qden q) =? 0
  | _ => false
  end.

(** [isNaN] on a Number *)
Definition Number_isNaN (x : number) : bool :=
  match x with NaN => true | _ => false end.

(** [x < k] and [x > k] for an integer constant [k]; comparisons with [NaN]
    are false. *)
Definition lt_Z (x : number) (k : Z) : bool :=
  match x with
  | NaN => false
  | Infinity neg => neg
  | Finite q => match Qcompare q (inject_Z k) with Lt => true | _ => false end
  end.

Definition gt_Z (x : number) (k : Z) : bool :=
  match x with
  | NaN => false
  | Infinity neg => negb neg
  | Finite q => match Qcompare q (inject_Z k) with Gt => true | _ => false end
  end.

(** The integer denoted by an integral Number ([-0] is [0]); used where an
    integral Number becomes an array index or an operand. *)
Definition to_Z (x : number) : option Z :=
  match x with
  | Finite q => if Qnum q mod Zpos (Qden q) =? 0
                then Some (Qnum q / Zpos (Qden q)) else None
  | _ => None
  end.

(** *** Numeric grammars

    [StrDecimalLiteral]: an optional sign, then [Infinity] or decimal digits
    with an optional fraction and an optional exponent part. *)
Inductive literal :=
| LitInfinity
| LitDecimal (mantissa : Z) (exp10 : Z).

Definition take_sign (s : jsstring) : bool * jsstring :=
  match s with
  | c :: r => if N.eqb c c_minus then (true, r)
              else if N.eqb c c_plus then (false, r) else (false, s)
  | [] => (false, s)
  end.

(** An [ExponentPart] at the head of [s], when there is one. *)
Definition scan_exponent (s : jsstring) : Z * jsstring :=
  match s with
  | c :: r =>
      if N.eqb c 101 || N.eqb c 69 then
        let (neg, r1) := take_sign r in
        let (ds, r2) := span is_digit r1 in
        match ds with
        | [] => (0, s)
        | _ => let v := digits_value 10 digit_val ds in
               ((if neg then - v else v), r2)
        end
      else (0, s)
  | [] => (0, s)
  end.

Definition scan_unsigned (s : jsstring) : option (literal * jsstring) :=
  if starts_with (lit "Infinity") s then Some (LitInfinity, skipn 8 s)
  else
    let (ip, r1) := span is_digit s in
    let (fp, r2) := match r1 with
                    | c :: t => if N.eqb c c_dot then span is_digit t
                                else ([], r1)
                    | [] => ([], r1)
                    end in
    match ip ++ fp with
    | [] => None
    | ds => let (x, r3) := scan_exponent r2 in
            Some (LitDecimal (digits_value 10 digit_val ds)
                             (x - Z.of_nat (List.length fp)), r3)
    end.

(** The longest prefix of [s] that is a [StrDecimalLiteral], with what
    follows it. *)
Definition scan_decimal (s : jsstring) : option (bool * literal * jsstring) :=
  let (neg, r) := take_sign s in
  match scan_unsigned r with
  | Some (l, rest) => Some (neg, l, rest)
  | None => None
  end.

Definition literal_value (neg : bool) (l : literal) : number :=
  match l with
  | LitInfinity => Infinity neg
  | LitDecimal m x =>
      if 0 <=? x then make_number neg (m * 10 ^ x) 1
      else make_number neg m (10 ^ (- x))
  end.

(** [0x], [0o] and [0b] literals ([NonDecimalIntegerLiteral]), unsigned. *)
Definition is_prefixed_literal (s : jsstring) : bool :=
  match s with
  | 48%N :: p :: d :: ds =>
      if N.eqb p 120 || N.eqb p 88 then forallb is_hex_digit (d :: ds)
      else if N.eqb p 111 || N.eqb p 79
      then forallb (fun c => (48 <=? c) && (c <=? 55))%N (d :: ds)
      else if N.eqb p 98 || N.eqb p 66
      then forallb (fun c => (48 <=? c) && (c <=? 49))%N (d :: ds)
      else false
  | _ => false
  end.

(** [isNaN(s)] for a string [s]: [Number(s)] is [NaN] unless the trimmed
    text is empty or a [StrNumericLiteral]. *)
Definition isNaN_string (s : jsstring) : bool :=
  match trim s with
  | [] => false
  | t => if is_prefixed_literal t then false
         else match scan_decimal t with
              | Some (_, _, []) => false
              | _ => true
              end
  end.

(** [parseFloat(s)] *)
Definition parseFloat (s : jsstring) : number :=
  match scan_decimal (trim_start s) with
  | Some (neg, l, _) => literal_value neg l
  | None => NaN
  end.

(** [parseInt(s)] with no radix argument: radix 10, or 16 after [0x]. *)
Definition parseInt (s : jsstring) : number :=
  let (neg, r) := take_sign (trim_start s) in
  let hex := starts_with (lit "0x") r || starts_with (lit "0X") r in
  let (ds, _) := if hex then span is_hex_digit (skipn 2 r)
                 else span is_digit r in
  match ds with
  | [] => NaN
  | _ => make_number neg (if hex then digits_value 16 hex_digit_val ds
                          else digits_value 10 digit_val ds) 1
  end.

(** Decimal digits of a non-negative integer, least significant first. *)
Fixpoint digits_rev (fuel : nat) (n : Z) : jsstring :=
  match fuel with
  | O => []
  | S f => Z.to_N (48 + n mod 10)
           :: (if n <? 10 then [] else digits_rev f (n / 10))
  end.

(** [n.toString()] (and the conversion used by template literals) for an
    integral Number below [10^21]: the decimal numeral. *)
Definition toString (n : Z) : jsstring :=
  if n <? 0 then c_minus :: rev (digits_rev (S (Z.to_nat (Z.log2 (- n)))) (- n))
  else rev (digits_rev (S (Z.to_nat (Z.log2 n))) n).

(** The remainder operator [%] on integers: the sign follows the dividend. *)
Definition rem (a b : Z) : Z := Z.rem a b.

(** [a[x]] for an array [a] and a Number [x]: [None] is [undefined]. *)
Definition index {A} (a : list A) (x : number) : option A :=
  match to_Z x with
  | Some i => if 0 <=? i then nth_error a (Z.to_nat i) else None
  | None => None
  end.

(** [a.splice(start, 1)]: the removed elements and the array that is left. *)
Definition splice_one {A} (a : list A) (start : number) : list A * list A :=
  let len := Z.of_nat (List.length a) in
  let actual :=
    match start with
    | NaN => 0
    | Infinity neg => if neg then 0 else len
    | Finite q =>
        let rs := Z.quot (Qnum q) (Zpos (Qden q)) in
        if rs <? 0 then Z.max (len + rs) 0 else Z.min rs len
    end in
  let k := Z.to_nat actual in
  (firstn 1 (skipn k a), firstn k a ++ skipn (S k) a).

End JS.

Import JS.


(** ** The game *)

(** [class Dice]: the faces, as given to the constructor. *)
Record Dice := { values : list Z }.

(** What the program writes with [console.log], one constructor per message;
    the wording of the messages is left out, their data is kept. *)
Inductive Output :=
| OutInvalidDiceInput
| OutDiceConfigError (message : jsstring)
| OutFirstMoveIntro
| OutCommit (upper : Z) (hmac : jsstring)
| OutGuessMenu
| OutExiting
| OutInvalidGuess
| OutMySelection (compChoice : option Z) (key : option jsstring)
| OutIMoveFirst
| OutChooseDice
| OutChooseMenu (dice : list (list Z))
| OutYouChoose (faces : list Z)
| OutInvalidDiceChoice
| OutMyRollTime
| OutInvalidNumber
| OutOutOfRange
| OutMyNumber (value : Z) (key : option jsstring)
| OutFairResult (a : Z) (b result : number)
| OutMyRoll (roll : option Z)
| OutYourTurn
| OutYourRoll (roll : option Z)
| OutYouWin (userRoll compRoll : option Z)
| OutIWin
| OutHelpIntro
| OutHelpTable (rows : list (list Z * list Z * number)).

(** The [readline] question that is waiting for a line, with the variables
    its callback closes over. *)
Inductive Question :=
| QGuess
| QDice
| QCompRound (compRandom : Z)
| QUserRound (compRoll : option Z) (userCompRandom : Z).

(** The phases of the specification. *)
Inductive Phase := Init | FirstMove | DiceSelection | RollExchange | Done.

(** The [DiceGame] object, its console and its position in the two random
    sources.  Fields that have not been assigned yet are [None]
    ([undefined]). *)
Record Game := {
  rl_closed : bool;
  pending : option Question;
  diceSet : option (list Dice);
  key : option jsstring;
  compChoice : option Z;
  hmac : option jsstring;
  userDice : option Dice;
  compDice : option Dice;
  console : list Output;      (* newest message first *)
  crypto_pos : nat;
  math_pos : nat
}.

Definition new_DiceGame : Game :=
  {| rl_closed := false; pending := None; diceSet := None; key := None;
     compChoice := None; hmac := None; userDice := None; compDice := None;
     console := []; crypto_pos := 0; math_pos := 0 |}.

Definition phase (g : Game) : Phase :=
  if rl_closed g then Done
  else match pending g with
       | None => Init
       | Some QGuess => FirstMove
       | Some QDice => DiceSelection
       | Some (QCompRound _) | Some (QUserRound _ _) => RollExchange
       end.

Definition set_rl_closed (b : bool) (g : Game) : Game :=
  {| rl_closed := b; pending := pending g; diceSet := diceSet g;
     key := key g; compChoice := compChoice g; hmac := hmac g;
     userDice := userDice g; compDice := compDice g; console := console g;
     crypto_pos := crypto_pos g; math_pos := math_pos g |}.

Definition set_pending (q : option Question) (g : Game) : Game :=
  {| rl_closed := rl_closed g; pending := q; diceSet := diceSet g;
     key := key g; compChoice := compChoice g; hmac := hmac g;
     userDice := userDice g; compDice := compDice g; console := console g;
     crypto_pos := crypto_pos g; math_pos := math_pos g |}.

Definition set_diceSet (d : option (list Dice)) (g : Game) : Game :=
  {| rl_closed := rl_closed g; pending := pending g; diceSet := d;
     key := key g; compChoice := compChoice g; hmac := hmac g;
     userDice := userDice g; compDice := compDice g; console := console g;
     crypto_pos := crypto_pos g; math_pos := math_pos g |}.

Definition set_key (k : option jsstring) (g : Game) : Game :=
  {| rl_closed := rl_closed g; pending := pending g; diceSet := diceSet g;
     key := k; compChoice := compChoice g; hmac := hmac g;
     userDice := userDice g; compDice := compDice g; console := console g;
     crypto_pos := crypto_pos g; math_pos := math_pos g |}.

Definition set_compChoice (c : option Z) (g : Game) : Game :=
  {| rl_closed := rl_closed g; pending := pending g; diceSet := diceSet g;
     key := key g; compChoice := c; hmac := hmac g;
     userDice := userDice g; compDice := compDice g; console := console g;
     crypto_pos := crypto_pos g; math_pos := math_pos g |}.

Definition set_hmac (h : option jsstring) (g : Game) : Game :=
  {| rl_closed := rl_closed g; pending := pending g; diceSet := diceSet g;
     key := key g; compChoice := compChoice g; hmac := h;
     userDice := userDice g; compDice := compDice g; console := console g;
     crypto_pos := crypto_pos g; math_pos := math_pos g |}.

Definition set_userDice (d : option Dice) (g : Game) : Game :=
  {| rl_closed := rl_closed g; pending := pending g; diceSet := diceSet g;
     key := key g; compChoice := compChoice g; hmac := hmac g;
     userDice := d; compDice := compDice g; console := console g;
     crypto_pos := crypto_pos g; math_pos := math_pos g |}.

Definition set_compDice (d : option Dice) (g : Game) : Game :=
  {| rl_closed := rl_closed g; pending := pending g; diceSet := diceSet g;
     key := key g; compChoice := compChoice g; hmac := hmac g;
     userDice := userDice g; compDice := d; console := console g;
     crypto_pos := crypto_pos g; math_pos := math_pos g |}.

Definition set_console (c : list Output) (g : Game) : Game :=
  {| rl_closed := rl_closed g; pending := pending g; diceSet := diceSet g;
     key := key g; compChoice := compChoice g; hmac := hmac g;
     userDice := userDice g; compDice := compDice g; console := c;
     crypto_pos := crypto_pos g; math_pos := math_pos g |}.

Definition set_crypto_pos (n : nat) (g : Game) : Game :=
  {| rl_closed := rl_closed g; pending := pending g; diceSet := diceSet g;
     key := key g; compChoice := compChoice g; hmac := hmac g;
     userDice := userDice g; compDice := compDice g; console := console g;
     crypto_pos := n; math_pos := math_pos g |}.

Definition set_math_pos (n : nat) (g : Game) : Game :=
  {| rl_closed := rl_closed g; pending := pending g; diceSet := diceSet g;
     key := key g; compChoice := compChoice g; hmac := hmac g;
     userDice := userDice g; compDice := compDice g; console := console g;
     crypto_pos := crypto_pos g; math_pos := n |}.

(** *** Statements: state passing with exceptions *)

Inductive Exn :=
| TypeError
| Error (message : jsstring).

Inductive Completion (A : Type) :=
| Normal (a : A)
| Throw (e : Exn).
Arguments Normal {A} a.
Arguments Throw {A} e.

Definition M (A : Type) : Type := Game -> Completion A * Game.

Definition ret {A} (a : A) : M A := fun g => (Normal a, g).

Definition bind {A B} (m : M A) (k : A -> M B) : M B :=
  fun g => match m g with
           | (Normal a, g') => k a g'
           | (Throw e, g') => (Throw e, g')
           end.

Definition throw {A} (e : Exn) : M A := fun g => (Throw e, g).

Definition try_catch {A} (m : M A) (handler : Exn -> M A) : M A :=
  fun g => match m g with
           | (Normal a, g') => (Normal a, g')
           | (Throw e, g') => handler e g'
           end.

Definition get {A} (f : Game -> A) : M A := fun g => (Normal (f g), g).
Definition modify (f : Game -> Game) : M unit := fun g => (Normal tt, f g).

Declare Scope js_scope.
Delimit Scope js_scope with js.
Notation "x <- m ;; k" := (bind m (fun x => k))
  (at level 61, m at next level, right associativity) : js_scope.
Notation "m ;; k" := (bind m (fun _ => k))
  (at level 61, right associativity) : js_scope.
Local Open Scope js_scope.

Definition console_log (o : Output) : M unit :=
  modify (fun g => set_console (o :: console g) g).

(** [this.rl.close()]: no callback runs afterwards. *)
Definition rl_close : M unit :=
  modify (fun g => set_rl_closed true (set_pending None g)).

(** [this.rl.question(prompt, callback)] *)
Definition rl_question (q : Question) : M unit :=
  modify (set_pending (Some q)).

(** Reading a property of [undefined] throws. *)
Definition defined {A} (x : option A) : M A :=
  match x with
  | Some a => ret a
  | None => throw TypeError
  end.

(** *** The outside world

    [crypto] and [Math.random] are not part of the program.  The HMAC is a
    function of key and message; the two random sources are the sequences of
    values they hand out, consumed from left to right. *)
Record Env := {
  (* crypto.createHmac('sha3-256', key).update(message).digest('hex') *)
  hmac_sha3_256 : jsstring -> jsstring -> jsstring;
  (* the bytes produced by crypto.randomBytes, in order *)
  random_byte : nat -> byte;
  (* the results of Math.random(), in order, as numerators over 2^53 *)
  math_random : nat -> Z
}.

Definition hex_digit (n : N) : N := (if n <? 10 then 48 + n else 87 + n)%N.

(** [buffer.toString('hex')] *)
Definition hex_of_bytes (bs : list byte) : jsstring :=
  flat_map (fun b => let n := Byte.to_N b in
                     [hex_digit (n / 16); hex_digit (n mod 16)]%N) bs.

(** [buffer.readUInt32BE()] *)
Definition readUInt32BE (bs : list byte) : Z :=
  fold_left (fun acc b => 256 * acc + Z.of_N (Byte.to_N b)) bs 0.

(** [userRoll > compRoll]; a comparison with [undefined] is false. *)
Definition js_gt (a b : option Z) : bool :=
  match a, b with
  | Some x, Some y => y <? x
  | _, _ => false
  end.

(** [x === z] for a Number [x] and an integer [z]. *)
Definition strict_eq_Z (x : number) (z : Z) : bool :=
  match x with
  | Finite q => Qeq_bool q (inject_Z z)
  | _ => false
  end.

Definition is_exit (answer : jsstring) : bool :=
  str_eqb answer (lit "X") || str_eqb answer (lit "x").

(** The fair-result expression [(a + b) % modulus] of lines 143 and 168 on
    integer operands, where the program has the constant 6 for [modulus].
    The operands the program supplies are small (0 to 5), so the sum is
    exact. *)
Definition combine (a b modulus : Z) : Z := rem (a + b) modulus.

(** [(compRandom + userRandom) % 6] on Numbers.  The second operand comes
    from [parseIntegerInput] and is an integer or [NaN]. *)
Definition fairResult (compRandom : Z) (userRandom : number) : number :=
  match to_Z userRandom with
  | Some u => of_Z (combine compRandom u 6)
  | None => NaN
  end.

Section Program.

Variable env : Env.

Definition crypto_randomBytes (n : nat) : M (list byte) :=
  fun g => (Normal (List.map (random_byte env) (seq (crypto_pos g) n)),
            set_crypto_pos (crypto_pos g + n) g).

(** [Math.random()]: a double in [[0,1)], as its numerator over [2^53]. *)
Definition Math_random : M Z :=
  fun g => (Normal (math_random env (math_pos g) mod 2 ^ 53),
            set_math_pos (S (math_pos g)) g).

(** [new Dice(values)], lines 5-10.  The faces are integers by their type. *)
Definition Dice_new (vs : list Z) : M Dice :=
  if (List.length vs <? 1)%nat
  then throw (Error (lit "Invalid dice configuration. Must be an array of integers."))
  else ret {| values := vs |}.

(** [Dice.roll], lines 12-14.  The product [Math.random() * length] is a
    floating-point product: it is rounded before [Math.floor] is taken.  An
    index outside the array reads [undefined]. *)
Definition roll (d : Dice) : M (option Z) :=
  u <- Math_random ;;
  ret (match floor_rounded (u * Z.of_nat (List.length (values d))) (2 ^ 53) with
       | Some i => nth_error (values d) (Z.to_nat i)
       | None => None
       end).

(** [FairRandom], lines 17-29 *)
Definition generateRandomKey : M jsstring :=
  bs <- crypto_randomBytes 32 ;; ret (hex_of_bytes bs).

Definition generateRandomNumber (range : Z) : M Z :=
  bs <- crypto_randomBytes 4 ;; ret (rem (readUInt32BE bs) range).

Definition generateHMAC (key message : jsstring) : jsstring :=
  hmac_sha3_256 env key message.

(** [validateDiceInput], lines 65-68; [input.split] throws on [undefined]. *)
Definition validateDiceInput (input : option jsstring) : M bool :=
  s <- defined input ;;
  let diceValues := List.map (fun val => parseInt (trim val)) (split c_comma s) in
  ret ((3 <=? List.length diceValues)%nat
       && forallb (fun val => negb (Number_isNaN val) && Number_isInteger val)
                  diceValues).

(** [parseIntegerInput], lines 184-195; [None] is [null]. *)
Definition parseIntegerInput (input : jsstring) : M (option number) :=
  if match input with [] => true | _ => false end
     || includes c_comma input
     || isNaN_string input
     || negb (Number_isInteger (parseFloat input))
  then console_log OutInvalidNumber ;; ret None
  else
    let parsedValue := parseInt input in
    if lt_Z parsedValue 0 || gt_Z parsedValue 5
    then console_log OutOutOfRange ;; ret None
    else ret (Some parsedValue).

(** [calculateWinProbability], lines 227-240.  The percentage is the double
    [(wins / trials) * 100]: the quotient is rounded, and so is the
    product. *)
Definition calculateWinProbability (userDice compDice : Dice) : M number :=
  let trials := 10000%N in
  wins <- N.iter trials
            (fun loop => wins <- loop ;;
                         userRoll <- roll userDice ;;
                         compRoll <- roll compDice ;;
                         ret (if js_gt userRoll compRoll then wins + 1 else wins))
            (ret 0) ;;
  ret (mul_Z (div_Z wins (Z.of_N trials)) 100).

(** [generateProbabilityTable], lines 205-225: the rows of the table. *)
Fixpoint probability_rows (pairs : list (list Z * list Z))
  : M (list (list Z * list Z * number)) :=
  match pairs with
  | [] => ret []
  | (u, c) :: rest =>
      userDice <- Dice_new u ;;
      compDice <- Dice_new c ;;
      winProb <- calculateWinProbability userDice compDice ;;
      rows <- probability_rows rest ;;
      ret ((values userDice, values compDice, winProb) :: rows)
  end.

Definition generateProbabilityTable : M (list (list Z * list Z * number)) :=
  probability_rows
    [ ([2; 2; 4; 4; 9; 9], [1; 1; 6; 6; 8; 8]);
      ([2; 2; 4; 4; 9; 9], [3; 3; 5; 5; 7; 7]);
      ([1; 1; 6; 6; 8; 8], [3; 3; 5; 5; 7; 7]) ].

(** [promptUser], lines 70-73, up to the question. *)
Definition promptUser : M unit :=
  console_log OutGuessMenu ;; rl_question QGuess.

(** [displayHelp], lines 197-203 *)
Definition displayHelp : M unit :=
  console_log OutHelpIntro ;;
  table <- generateProbabilityTable ;;
  console_log (OutHelpTable table) ;;
  promptUser.

(** [chooseDice], lines 97-101, up to the question. *)
Definition chooseDice : M unit :=
  console_log OutChooseDice ;;
  ds <- get diceSet ;;
  ds <- defined ds ;;
  console_log (OutChooseMenu (List.map values ds)) ;;
  rl_question QDice.

(** [isValidDiceChoice], lines 118-121 *)
Definition isValidDiceChoice (answer : jsstring) : M bool :=
  let diceIndex := parseInt answer in
  if Number_isNaN diceIndex then ret false
  else
    ds <- get diceSet ;;
    ds <- defined ds ;;
    ret (match index ds diceIndex with Some _ => true | None => false end).

(** A fresh commitment over [0..5]: lines 125-128 and 150-153. *)
Definition commit6 : M Z :=
  k <- generateRandomKey ;;
  modify (set_key (Some k)) ;;
  r <- generateRandomNumber 6 ;;
  let h := generateHMAC k (toString r) in
  modify (set_hmac (Some h)) ;;
  console_log (OutCommit 5 h) ;;
  ret r.

(** [playRound], lines 123-130, up to the first question. *)
Definition playRound : M unit :=
  console_log OutMyRollTime ;;
  compRandom <- commit6 ;;
  rl_question (QCompRound compRandom).

(** The callback of the second question, lines 155-180. *)
Definition on_user_round (compRoll : option Z) (userCompRandom : Z)
                         (userAnswer : jsstring) : M unit :=
  if is_exit userAnswer then console_log OutExiting ;; rl_close
  else
    userCompMod <- parseIntegerInput userAnswer ;;
    match userCompMod with
    | None => playRound
    | Some userCompMod =>
        k <- get key ;;
        console_log (OutMyNumber userCompRandom k) ;;
        let userFairResult := fairResult userCompRandom userCompMod in
        console_log (OutFairResult userCompRandom userCompMod userFairResult) ;;
        ud <- get userDice ;;
        ud <- defined ud ;;
        userRoll <- roll ud ;;
        console_log (OutYourRoll userRoll) ;;
        (if js_gt userRoll compRoll
         then console_log (OutYouWin userRoll compRoll)
         else console_log OutIWin) ;;
        rl_close
    end.

(** The callback of the first question, lines 130-181. *)
Definition on_comp_round (compRandom : Z) (answer : jsstring) : M unit :=
  if is_exit answer then console_log OutExiting ;; rl_close
  else
    userRandom <- parseIntegerInput answer ;;
    match userRandom with
    | None => playRound
    | Some userRandom =>
        k <- get key ;;
        console_log (OutMyNumber compRandom k) ;;
        let fair := fairResult compRandom userRandom in
        console_log (OutFairResult compRandom userRandom fair) ;;
        cd <- get compDice ;;
        cd <- defined cd ;;
        compRoll <- roll cd ;;
        console_log (OutMyRoll compRoll) ;;
        console_log OutYourTurn ;;
        userCompRandom <- commit6 ;;
        rl_question (QUserRound compRoll userCompRandom)
    end.

(** The callback of [chooseDice], lines 101-115. *)
Definition on_dice (answer : jsstring) : M unit :=
  if is_exit answer then console_log OutExiting ;; rl_close
  else
    valid <- isValidDiceChoice answer ;;
    if valid : bool then
      ds <- get diceSet ;;
      ds <- defined ds ;;
      let (removed, rest) := splice_one ds (parseInt answer) in
      modify (set_diceSet (Some rest)) ;;
      modify (set_userDice (hd_error removed)) ;;
      ud <- defined (hd_error removed) ;;
      console_log (OutYouChoose (values ud)) ;;
      modify (set_compDice (hd_error rest)) ;;
      playRound
    else
      console_log OutInvalidDiceChoice ;; chooseDice.

(** [resolveFirstMove], lines 89-95 *)
Definition resolveFirstMove (userGuess : number) : M unit :=
  c <- get compChoice ;;
  k <- get key ;;
  console_log (OutMySelection c k) ;;
  (if match c with Some z => negb (strict_eq_Z userGuess z) | None => true end
   then console_log OutIMoveFirst else ret tt) ;;
  chooseDice.

(** The callback of [promptUser], lines 73-86. *)
Definition on_guess (answer : jsstring) : M unit :=
  if is_exit answer then console_log OutExiting ;; rl_close
  else if str_eqb answer (lit "?") then displayHelp
  else if str_eqb answer (lit "0") || str_eqb answer (lit "1")
  then resolveFirstMove (parseInt answer)
  else console_log OutInvalidGuess ;; promptUser.

(** [startGame], lines 36-63 *)
Definition startGame (diceInput : option jsstring) : M unit :=
  validDiceInput <- validateDiceInput diceInput ;;
  if negb validDiceInput then
    console_log OutInvalidDiceInput ;; rl_close
  else
    built <- try_catch
               (d0 <- Dice_new [2; 2; 4; 4; 9; 9] ;;
                d1 <- Dice_new [1; 1; 6; 6; 8; 8] ;;
                d2 <- Dice_new [3; 3; 5; 5; 7; 7] ;;
                modify (set_diceSet (Some [d0; d1; d2])) ;;
                ret true)
               (fun error =>
                  console_log (OutDiceConfigError
                                 match error with
                                 | Error m => m
                                 | TypeError => []
                                 end) ;;
                  ret false) ;;
    if built : bool then
      console_log OutFirstMoveIntro ;;
      k <- generateRandomKey ;;
      modify (set_key (Some k)) ;;
      c <- generateRandomNumber 2 ;;
      modify (set_compChoice (Some c)) ;;
      let h := generateHMAC k (toString c) in
      modify (set_hmac (Some h)) ;;
      console_log (OutCommit 1 h) ;;
      promptUser
    else ret tt.

(** *** Input events

    A line typed by the user runs the callback of the pending question, if
    the interface is still open. *)
Definition callback (q : Question) : jsstring -> M unit :=
  match q with
  | QGuess => on_guess
  | QDice => on_dice
  | QCompRound compRandom => on_comp_round compRandom
  | QUserRound compRoll userCompRandom => on_user_round compRoll userCompRandom
  end.

Definition line (answer : jsstring) : M unit :=
  fun g =>
    if rl_closed g then (Normal tt, g)
    else match pending g with
         | Some q => callback q answer (set_pending None g)
         | None => (Normal tt, g)
         end.

(** The lines of a session, one after the other; an uncaught exception ends
    the process. *)
Fixpoint lines (answers : list jsstring) : M unit :=
  match answers with
  | [] => ret tt
  | a :: rest => line a ;; lines rest
  end.

(** The script, lines 244-247: [process.argv[2]] is a string or [undefined]. *)
Definition main (argv2 : option jsstring) (answers : list jsstring)
  : Completion unit * Game :=
  (startGame argv2 ;; lines answers) new_DiceGame.

End Program.

(** ** Vocabulary of the specification *)

(** The three dice built by [startGame]. *)
Definition preset : list Dice :=
  [ {| values := [2; 2; 4; 4; 9; 9] |};
    {| values := [1; 1; 6; 6; 8; 8] |};
    {| values := [3; 3; 5; 5; 7; 7] |} ].

(** Which message [parseIntegerInput] writes for an input, if it rejects
    it. *)
Definition integer_input_error (input : jsstring) : option Output :=
  if match input with [] => true | _ => false end
     || includes c_comma input
     || isNaN_string input
     || negb (Number_isInteger (parseFloat input))
  then Some OutInvalidNumber
  else if lt_Z (parseInt input) 0 || gt_Z (parseInt input) 5
  then Some OutOutOfRange
  else None.

(** The face [roll] returns for die [d] when [Math.random] stands at
    position [pos]. *)
Definition face (env : Env) (pos : nat) (d : Dice) : option Z :=
  match floor_rounded ((math_random env pos mod 2 ^ 53)
                       * Z.of_nat (List.length (values d))) (2 ^ 53) with
  | Some i => nth_error (values d) (Z.to_nat i)
  | None => None
  end.

(** The commitment generated when [crypto.randomBytes] stands at position
    [pos]: the secret, the committed value and the tag. *)
Definition fresh_key (env : Env) (pos : nat) : jsstring :=
  hex_of_bytes (List.map (random_byte env) (seq pos 32)).

Definition fresh_value (env : Env) (pos : nat) (range : Z) : Z :=
  rem (readUInt32BE (List.map (random_byte env) (seq (pos + 32) 4))) range.

Definition fresh_tag (env : Env) (pos : nat) (range : Z) : jsstring :=
  hmac_sha3_256 env (fresh_key env pos) (toString (fresh_value env pos range)).

(** The state [playRound] leaves behind when it is entered in state [g]. *)
Definition restarted (env : Env) (g : Game) : Game :=
  let pos := crypto_pos g in
  set_pending (Some (QCompRound (fresh_value env pos 6)))
    (set_console (OutCommit 5 (fresh_tag env pos 6) :: OutMyRollTime :: console g)
       (set_hmac (Some (fresh_tag env pos 6))
          (set_crypto_pos (pos + 32 + 4)
             (set_key (Some (fresh_key env pos)) g)))).

(** The state in which a session that failed validation ends. *)
Definition aborted : Game :=
  set_rl_closed true (set_console [OutInvalidDiceInput] new_DiceGame).

(** The pending commitment of a state: secret, committed value, tag. *)
Definition pending_commitment (g : Game)
  : option (option jsstring * Z * option jsstring) :=
  match pending g with
  | Some QGuess =>
      match compChoice g with
      | Some c => Some (key g, c, hmac g)
      | None => None
      end
  | Some (QCompRound c) | Some (QUserRound _ c) => Some (key g, c, hmac g)
  | _ => None
  end.

(** The dice handed to the human, as the console shows them. *)
Fixpoint chosen (log : list Output) : list (list Z) :=
  match log with
  | OutYouChoose faces :: older => faces :: chosen older
  | _ :: older => chosen older
  | [] => []
  end.

(** The tag most recently disclosed on the console. *)
Fixpoint disclosed_tag (log : list Output) : option jsstring :=
  match log with
  | OutCommit _ tag :: _ => Some tag
  | _ :: older => disclosed_tag older
  | [] => None
  end.

(** A decimal numeral without leading zeros and its value. *)
Definition canonical_decimal (s : jsstring) (n : Z) : Prop :=
  s <> [] /\ forallb is_digit s = true
  /\ digits_value 10 digit_val s = n
  /\ (hd_error s = Some c_zero -> s = [c_zero]).

(** Every value and secret revealed on the console reproduces the tag
    disclosed before it, from the decimal numeral of the value. *)
Fixpoint reveals_verify (env : Env) (log : list Output) : Prop :=
  match log with
  | OutMySelection (Some v) (Some k) :: older
  | OutMyNumber v (Some k) :: older =>
      disclosed_tag older = Some (hmac_sha3_256 env k (toString v))
      /\ canonical_decimal (toString v) v
      /\ reveals_verify env older
  | OutMySelection _ _ :: _ | OutMyNumber _ None :: _ => False
  | _ :: older => reveals_verify env older
  | [] => True
  end.

(** How many of the comma-separated values of a startup input parse as
    integers. *)
Definition parsed_integers (input : jsstring) : nat :=
  List.length
    (filter (fun val => negb (Number_isNaN val) && Number_isInteger val)
            (List.map (fun val => parseInt (trim val)) (split c_comma input))).

(** The console with the fair-result messages left out. *)
Definition without_fair (log : list Output) : list Output :=
  filter (fun o => match o with OutFairResult _ _ _ => false | _ => true end) log.

(** A sample world for the concrete sessions below; its HMAC only stands in
    for the digest, which none of them depends on. *)
Definition sample_env : Env :=
  {| hmac_sha3_256 := fun k m => (m ++ [58%N] ++ firstn 4 k)%list;
     random_byte := fun i =>
       match Byte.of_N (N.of_nat (i * 41 + 7) mod 256) with
       | Some b => b
       | None => x00
       end;
     math_random := fun i => Z.of_nat i * 1234567891234567 + 999 |}.

(** Whether [validateDiceInput] accepts a string. *)
Definition valid_dice_input (input : jsstring) : bool :=
  let diceValues := List.map (fun val => parseInt (trim val)) (split c_comma input) in
  (3 <=? List.length diceValues)%nat
  && forallb (fun val => negb (Number_isNaN val) && Number_isInteger val)
             diceValues.

(** The state after a fresh commitment over [0..upper]. *)
Definition committed (env : Env) (range : Z) (g : Game) : Game :=
  let pos := crypto_pos g in
  set_console (OutCommit (range - 1) (fresh_tag env pos range) :: console g)
    (set_hmac (Some (fresh_tag env pos range))
       (set_crypto_pos (pos + 32 + 4)
          (set_key (Some (fresh_key env pos)) g))).

(** The state [startGame] leaves behind for a valid startup input. *)
Definition started (env : Env) (g : Game) : Game :=
  let g1 := set_console (OutFirstMoveIntro :: console g)
              (set_diceSet (Some preset) g) in
  let g2 := set_compChoice (Some (fresh_value env (crypto_pos g) 2))
              (committed env 2 g1) in
  set_pending (Some QGuess) (set_console (OutGuessMenu :: console g2) g2).

(** The state after [rl.close()] preceded by one message. *)
Definition closed_with (o : Output) (g : Game) : Game :=
  set_rl_closed true (set_pending None (set_console (o :: console g) g)).

(** The state after the computer's sub-round, for a contribution that
    [parseIntegerInput] accepted. *)
Definition comp_rolled (env : Env) (compRandom : Z) (userRandom : number)
                       (d : Dice) (g : Game) : Game :=
  let compRoll := face env (math_pos g) d in
  let g1 := set_math_pos (S (math_pos g))
              (set_console
                 (OutYourTurn :: OutMyRoll compRoll
                  :: OutFairResult compRandom userRandom
                       (fairResult compRandom userRandom)
                  :: OutMyNumber compRandom (key g) :: console g) g) in
  set_pending (Some (QUserRound compRoll (fresh_value env (crypto_pos g) 6)))
    (committed env 6 g1).

(** The state after the human's sub-round, for an accepted contribution. *)
Definition user_rolled (env : Env) (compRoll : option Z) (userCompRandom : Z)
                       (userCompMod : number) (d : Dice) (g : Game) : Game :=
  let userRoll := face env (math_pos g) d in
  closed_with
    (if js_gt userRoll compRoll then OutYouWin userRoll compRoll else OutIWin)
    (set_math_pos (S (math_pos g))
       (set_console
          (OutYourRoll userRoll
           :: OutFairResult userCompRandom userCompMod
                (fairResult userCompRandom userCompMod)
           :: OutMyNumber userCompRandom (key g) :: console g) g)).

(** The state after the human took the die [d] out of [pool] at [start]. *)
Definition dice_chosen (env : Env) (start : number) (pool : list Dice)
                       (d : Dice) (g : Game) : Game :=
  let rest := snd (splice_one pool start) in
  restarted env
    (set_compDice (hd_error rest)
       (set_console (OutYouChoose (values d) :: console g)
          (set_userDice (Some d) (set_diceSet (Some rest) g)))).

(** The state after the dice menu was shown. *)
Definition dice_prompted (pool : list Dice) (log : list Output) (g : Game) : Game :=
  set_pending (Some QDice)
    (set_console (OutChooseMenu (List.map values pool) :: OutChooseDice :: log) g).

(** The state after the human's guess was resolved. *)
Definition first_move_resolved (userGuess : number) (pool : list Dice)
                               (g : Game) : Game :=
  let log := OutMySelection (compChoice g) (key g) :: console g in
  dice_prompted pool
    (if match compChoice g with
        | Some z => negb (strict_eq_Z userGuess z)
        | None => true
        end
     then OutIMoveFirst :: log else log) g.

(** The state after the guess menu was shown. *)
Definition guess_prompted (log : list Output) (g : Game) : Game :=
  set_pending (Some QGuess) (set_console (OutGuessMenu :: log) g).

(** Taking a die out of the pool, lines 106-107: the index is checked by
    [isValidDiceChoice] and the die removed with [splice]. *)
Definition takeByIndex (pool : list Dice) (i : number)
  : option (Dice * list Dice) :=
  match index pool i with
  | Some _ =>
      let (removed, rest) := splice_one pool i in
      match hd_error removed with
      | Some d => Some (d, rest)
      | None => None
      end
  | None => None
  end.

(** What holds of every state a session reaches. *)
Definition session_invariant (env : Env) (g : Game) : Prop :=
  reveals_verify env (console g)
  /\ (List.length (chosen (console g)) <= 1)%nat
  /\ (forall d rest, userDice g = Some d -> diceSet g = Some rest -> ~ In d rest)
  /\ (rl_closed g = false ->
      match pending g with
      | Some QGuess =>
          diceSet g = Some preset /\ chosen (console g) = []
          /\ userDice g = None
          /\ exists k c,
               key g = Some k /\ compChoice g = Some c /\ 0 <= c
               /\ disclosed_tag (console g)
                  = Some (hmac_sha3_256 env k (toString c))
      | Some QDice =>
          diceSet g = Some preset /\ chosen (console g) = []
          /\ userDice g = None
      | Some (QCompRound c) | Some (QUserRound _ c) =>
          (exists d, userDice g = Some d)
          /\ (exists d, compDice g = Some d)
          /\ 0 <= c
          /\ exists k,
               key g = Some k
               /\ disclosed_tag (console g)
                  = Some (hmac_sha3_256 env k (toString c))
      | None => True
      end).

(** The value of a digit sequence written least significant digit first. *)
Definition little_endian_value (l : jsstring) : Z :=
  fold_right (fun c acc => 10 * acc + digit_val c) 0 l.

(** The inputs the specification calls invalid at a numeric prompt: text
    with a comma, text that is not a number, a number that is not an
    integer, and the decimal numeral of an integer outside [[0,5]]. *)
Inductive invalid_numeric_input : jsstring -> Prop :=
| invalid_comma (s : jsstring) :
    includes c_comma s = true -> invalid_numeric_input s
| invalid_not_a_number (s : jsstring) :
    isNaN_string s = true -> invalid_numeric_input s
| invalid_not_integral (s : jsstring) :
    Number_isInteger (parseFloat s) = false -> invalid_numeric_input s
| invalid_out_of_range (z : Z) :
    z < 0 \/ 5 < z -> invalid_numeric_input (toString z).

(** A session of the sample world that has reached the computer's
    sub-round, and the same session one accepted contribution later, in the
    human's sub-round. *)
Definition sample_comp_round : Game :=
  snd (main sample_env (Some (lit "1,2,3")) [lit "0"; lit "0"]).

Definition sample_user_round : Game :=
  snd (main sample_env (Some (lit "1,2,3")) [lit "0"; lit "0"; lit "3"]).

(** The roll message of the sub-round pending in [g]: the face the assigned
    die shows at the current position of [Math.random]. *)
Definition roll_message (env : Env) (g : Game) : option Output :=
  if rl_closed g then None
  else match pending g with
       | Some (QCompRound _) =>
           option_map (fun d => OutMyRoll (face env (math_pos g) d)) (compDice g)
       | Some (QUserRound _ _) =>
           option_map (fun d => OutYourRoll (face env (math_pos g) d)) (userDice g)
       | _ => None
       end.

(** The fair-result message of the sub-round pending in [g] for the
    contribution [x]. *)
Definition fair_message (g : Game) (x : number) : option Output :=
  match pending g with
  | Some (QCompRound c) | Some (QUserRound _ c) =>
      Some (OutFairResult c x (fairResult c x))
  | _ => None
  end.

(** [pieces.join(sep)] *)
Fixpoint join (sep : N) (pieces : list jsstring) : jsstring :=
  match pieces with
  | [] => []
  | [p] => p
  | p :: rest => p ++ sep :: join sep rest
  end.

(** Where the rolls on the console come from: each is a face of the die
    assigned to the party that rolled, and the assigned dice are preset
    dice. *)
Definition rolls_from_dice (g : Game) : Prop :=
  (forall r, In (OutYourRoll r) (console g) ->
     exists d v, userDice g = Some d /\ r = Some v /\ In v (values d))
  /\ (forall r, In (OutMyRoll r) (console g) ->
        exists d v, compDice g = Some d /\ r = Some v /\ In v (values d))
  /\ (forall d, userDice g = Some d -> In d preset)
  /\ (forall d, compDice g = Some d -> In d preset)
  /\ (userDice g = None -> compDice g = None)
  /\ (forall cr c, rl_closed g = false -> pending g = Some (QUserRound cr c) ->
        In (OutMyRoll cr) (console g))
  /\ (forall u c, In (OutYouWin u c) (console g) ->
        In (OutYourRoll u) (console g) /\ In (OutMyRoll c) (console g)).

(** The dice prompt is behind: the session is over or in the roll
    exchange. *)
Definition selection_over (g : Game) : Prop :=
  rl_closed g = true
  \/ match pending g with
     | Some QGuess | Some QDice => False
     | _ => True
     end.

(** * Verification *)

(** ** The built-ins on sample inputs *)

Example parse_examples :
  (parseInt (lit "1abc"), parseInt (lit "0.5"), parseInt (lit " -7,2"),
   parseInt (lit "0x1f"), parseInt (lit "abc"), to_Z (parseInt (lit "1e1")))
  = (of_Z 1, of_Z 0, of_Z (-7), of_Z 31, NaN, Some 1)
  /\ (Number_isInteger (parseFloat (lit "0.5")),
      Number_isInteger (parseFloat (lit "2.50e1")),
      Number_isInteger (parseFloat (lit "1.00000000000000000001")),
      Number_isInteger (parseFloat (lit "1e400")),
      Number_isInteger (parseFloat (lit ".")) )
     = (false, true, true, false, false)
  /\ (isNaN_string (lit "abc"), isNaN_string (lit "1abc"),
      isNaN_string (lit " 12 "), isNaN_string (lit "0x1F"),
      isNaN_string (lit "1e"), isNaN_string (lit "-Infinity"),
      isNaN_string (lit "   "))
     = (true, true, false, false, true, false, false)
  /\ (toString 0, toString 5, toString 4294967295, toString (-12))
     = (lit "0", lit "5", lit "4294967295", lit "-12")
  /\ (floor_rounded (3 * 6) 8, floor_rounded (6004799503160661 * 6) (2 ^ 53),
      6004799503160661 * 6 / 2 ^ 53)
     = (Some 2, Some 4, 3)
  /\ split c_comma (lit "1,,2,") = [lit "1"; []; lit "2"; []]
  /\ trim (lit "  a b ") = lit "a b".
Proof. vm_compute. repeat split. Qed.

(** ** Running the program symbolically *)

Arguments parseInt : simpl never.
Arguments parseFloat : simpl never.
Arguments isNaN_string : simpl never.
Arguments trim : simpl never.
Arguments split : simpl never.
Arguments toString : simpl never.
Arguments hex_of_bytes : simpl never.
Arguments readUInt32BE : simpl never.
Arguments rem : simpl never.
Arguments is_exit : simpl never.
Arguments str_eqb : simpl never.
Arguments lit : simpl never.
Arguments includes : simpl never.
Arguments index : simpl never.
Arguments floor_rounded : simpl never.
Arguments splice_one : simpl never.
Arguments fairResult : simpl never.
Arguments Z.pow : simpl never.
Arguments Z.mul : simpl never.
Arguments Z.div : simpl never.
Arguments Z.modulo : simpl never.

Lemma validateDiceInput_undefined (g : Game) :
  validateDiceInput None g = (Throw TypeError, g).
Proof. reflexivity. Qed.

Lemma validateDiceInput_string (s : jsstring) (g : Game) :
  validateDiceInput (Some s) g = (Normal (valid_dice_input s), g).
Proof. reflexivity. Qed.

Lemma validateDiceInput_false (s : jsstring) (g : Game) :
  (parsed_integers s < 3)%nat ->
  validateDiceInput (Some s) g = (Normal false, g).
Proof.
  intros H. unfold validateDiceInput, parsed_integers, bind, defined, ret in *.
  set (vs := List.map _ (split c_comma s)) in *.
  set (f := fun val => negb (Number_isNaN val) && Number_isInteger val) in *.
  destruct (3 <=? List.length vs)%nat eqn:L; [|reflexivity].
  destruct (forallb f vs) eqn:F; [|reflexivity].
  apply forallb_filter_id in F. rewrite F in H.
  apply Nat.leb_le in L. lia.
Qed.

Lemma startGame_string (env : Env) (s : jsstring) (g : Game) :
  startGame env (Some s) g
  = (Normal tt, if valid_dice_input s then started env g
                else closed_with OutInvalidDiceInput g).
Proof.
  unfold startGame. unfold bind at 1. rewrite validateDiceInput_string.
  destruct (valid_dice_input s); reflexivity.
Qed.

Lemma line_closed (env : Env) (a : jsstring) (g : Game) :
  rl_closed g = true -> line env a g = (Normal tt, g).
Proof. intros H. unfold line. now rewrite H. Qed.

Lemma lines_closed (env : Env) (answers : list jsstring) (g : Game) :
  rl_closed g = true -> lines env answers g = (Normal tt, g).
Proof.
  intros H. induction answers as [|a rest IH]; [reflexivity|].
  cbn. unfold bind. now rewrite line_closed.
Qed.

(** ** Start-up *)

(** C8: a startup input with fewer than three comma-separated values that
    parse as integers ends the session with the validation message and
    nothing else: the interface is closed (phase [Done], whatever is typed
    afterwards), no dice pool is built, no key, value or tag is generated and
    no random byte is consumed. *)
Theorem too_few_dice_values_abort
    (env : Env) (input : jsstring) (answers : list jsstring)
    (Hfew : (parsed_integers input < 3)%nat) :
  main env (Some input) answers = (Normal tt, aborted)
  /\ console aborted = [OutInvalidDiceInput]
  /\ phase aborted = Done
  /\ diceSet aborted = None
  /\ (key aborted, compChoice aborted, hmac aborted) = (None, None, None)
  /\ disclosed_tag (console aborted) = None
  /\ crypto_pos aborted = 0%nat.
Proof.
  split; [|repeat split].
  unfold main, bind, startGame, bind.
  rewrite (validateDiceInput_false input new_DiceGame Hfew). cbn.
  now rewrite lines_closed.
Qed.

Lemma too_few_dice_values_abort_witness :
  (parsed_integers (lit "1,2") < 3)%nat
  /\ main sample_env (Some (lit "1,2")) [lit "0"] = (Normal tt, aborted).
Proof.
  split; [vm_compute; lia|].
  apply (too_few_dice_values_abort sample_env (lit "1,2") [lit "0"]).
  vm_compute; lia.
Defined.

(** C10: with no command-line argument the startup input is [undefined];
    [validateDiceInput] throws a [TypeError] at [input.split], nothing
    catches it, and the session ends without any message, in particular
    without the validation message.  For every string argument [startGame]
    returns normally. *)
Theorem missing_input_throws (env : Env) (answers : list jsstring) :
  main env None answers = (Throw TypeError, new_DiceGame)
  /\ console (snd (main env None answers)) = []
  /\ (forall (s : jsstring) (g : Game),
        exists g', startGame env (Some s) g = (Normal tt, g')).
Proof.
  repeat split.
  intros s g. rewrite startGame_string. destruct (valid_dice_input s); eauto.
Qed.

(** ** The steps of a session *)

Arguments fresh_key : simpl never.
Arguments fresh_value : simpl never.
Arguments fresh_tag : simpl never.
Arguments face : simpl never.
Arguments integer_input_error : simpl never.

Lemma parseIntegerInput_run (a : jsstring) (g : Game) :
  parseIntegerInput a g
  = match integer_input_error a with
    | Some o => (Normal None, set_console (o :: console g) g)
    | None => (Normal (Some (parseInt a)), g)
    end.
Proof.
  unfold parseIntegerInput, integer_input_error.
  destruct (_ || _ || _ || _); [reflexivity|].
  destruct (_ || _); reflexivity.
Qed.

Lemma roll_run (env : Env) (d : Dice) (g : Game) :
  roll env d g
  = (Normal (face env (math_pos g) d), set_math_pos (S (math_pos g)) g).
Proof. reflexivity. Qed.

Lemma commit6_run (env : Env) (g : Game) :
  commit6 env g = (Normal (fresh_value env (crypto_pos g) 6), committed env 6 g).
Proof. reflexivity. Qed.

Lemma playRound_run (env : Env) (g : Game) :
  playRound env g = (Normal tt, restarted env g).
Proof. reflexivity. Qed.

Lemma chooseDice_run (g : Game) :
  chooseDice g
  = match diceSet g with
    | Some pool => (Normal tt, dice_prompted pool (console g) g)
    | None => (Throw TypeError, set_console (OutChooseDice :: console g) g)
    end.
Proof.
  unfold chooseDice, bind, get, defined. cbn. now destruct (diceSet g).
Qed.

Lemma on_exit_comp (env : Env) (c : Z) (a : jsstring) (g : Game) :
  is_exit a = true ->
  on_comp_round env c a g = (Normal tt, closed_with OutExiting g).
Proof. intros H. unfold on_comp_round. now rewrite H. Qed.

Lemma on_exit_user (env : Env) (cr : option Z) (c : Z) (a : jsstring) (g : Game) :
  is_exit a = true ->
  on_user_round env cr c a g = (Normal tt, closed_with OutExiting g).
Proof. intros H. unfold on_user_round. now rewrite H. Qed.

Lemma on_comp_round_rejected (env : Env) (c : Z) (a : jsstring) (o : Output) (g : Game) :
  is_exit a = false -> integer_input_error a = Some o ->
  on_comp_round env c a g
  = (Normal tt, restarted env (set_console (o :: console g) g)).
Proof.
  intros X E. unfold on_comp_round. rewrite X. unfold bind at 1.
  rewrite parseIntegerInput_run, E. reflexivity.
Qed.

Lemma on_user_round_rejected (env : Env) (cr : option Z) (c : Z) (a : jsstring)
                             (o : Output) (g : Game) :
  is_exit a = false -> integer_input_error a = Some o ->
  on_user_round env cr c a g
  = (Normal tt, restarted env (set_console (o :: console g) g)).
Proof.
  intros X E. unfold on_user_round. rewrite X. unfold bind at 1.
  rewrite parseIntegerInput_run, E. reflexivity.
Qed.

Lemma on_comp_round_accepted (env : Env) (c : Z) (a : jsstring) (g : Game) :
  is_exit a = false -> integer_input_error a = None ->
  on_comp_round env c a g
  = match compDice g with
    | Some d => (Normal tt, comp_rolled env c (parseInt a) d g)
    | None =>
        (Throw TypeError,
         set_console (OutFairResult c (parseInt a) (fairResult c (parseInt a))
                      :: OutMyNumber c (key g) :: console g) g)
    end.
Proof.
  intros X E. unfold on_comp_round. rewrite X. unfold bind at 1.
  rewrite parseIntegerInput_run, E.
  unfold bind, get, defined, console_log, modify. cbn.
  destruct (compDice g); reflexivity.
Qed.

Lemma on_user_round_accepted (env : Env) (cr : option Z) (c : Z) (a : jsstring)
                             (g : Game) :
  is_exit a = false -> integer_input_error a = None ->
  on_user_round env cr c a g
  = match userDice g with
    | Some d => (Normal tt, user_rolled env cr c (parseInt a) d g)
    | None =>
        (Throw TypeError,
         set_console (OutFairResult c (parseInt a) (fairResult c (parseInt a))
                      :: OutMyNumber c (key g) :: console g) g)
    end.
Proof.
  intros X E. unfold on_user_round. rewrite X. unfold bind at 1.
  rewrite parseIntegerInput_run, E.
  unfold bind, get, defined, console_log, modify. cbn.
  destruct (userDice g) as [d|]; [|reflexivity].
  unfold user_rolled, roll, Math_random, bind, ret, face. cbn.
  destruct (js_gt _ cr); reflexivity.
Qed.

Lemma set_math_pos_id (g : Game) : set_math_pos (math_pos g) g = g.
Proof. now destruct g. Qed.

Lemma win_loop_frame (env : Env) (u c : Dice) (n : N) (g : Game) :
  exists w p,
    N.iter n
      (fun loop : M Z =>
         wins <- loop ;;
         userRoll <- roll env u ;;
         compRoll <- roll env c ;;
         ret (if js_gt userRoll compRoll then wins + 1 else wins))
      (ret 0) g
    = (Normal w, set_math_pos p g).
Proof.
  induction n as [|n IH] using N.peano_ind.
  - exists 0, (math_pos g). now rewrite set_math_pos_id.
  - destruct IH as (w & p & IH). rewrite N.iter_succ.
    unfold bind at 1. rewrite IH.
    unfold bind at 1. rewrite roll_run.
    unfold bind at 1. rewrite roll_run.
    eexists _, _. reflexivity.
Qed.

Lemma calculateWinProbability_frame (env : Env) (u c : Dice) (g : Game) :
  exists q p, calculateWinProbability env u c g = (Normal q, set_math_pos p g).
Proof.
  unfold calculateWinProbability. unfold bind at 1.
  destruct (win_loop_frame env u c 10000 g) as (w & p & ->).
  eexists _, _. reflexivity.
Qed.

Arguments calculateWinProbability : simpl never.

Lemma probability_rows_frame (env : Env) (pairs : list (list Z * list Z)) :
  Forall (fun uc => fst uc <> [] /\ snd uc <> []) pairs ->
  forall g, exists rows p,
    probability_rows env pairs g = (Normal rows, set_math_pos p g).
Proof.
  induction 1 as [|[u c] rest [Hu Hc] _ IH]; intros g.
  - exists [], (math_pos g). cbn. now rewrite set_math_pos_id.
  - cbn in Hu, Hc. destruct u as [|u0 u]; [easy|]. destruct c as [|c0 c]; [easy|].
    cbn [probability_rows]. unfold bind at 1. cbn [Dice_new List.length Nat.ltb Nat.leb ret].
    unfold bind at 1. cbn [Dice_new List.length Nat.ltb Nat.leb ret].
    unfold bind at 1.
    destruct (calculateWinProbability_frame env {| values := u0 :: u |}
                {| values := c0 :: c |} g) as (q & p & ->).
    unfold bind at 1.
    destruct (IH (set_math_pos p g)) as (rows & p' & ->).
    eexists _, _. reflexivity.
Qed.

Lemma generateProbabilityTable_frame (env : Env) (g : Game) :
  exists rows p, generateProbabilityTable env g = (Normal rows, set_math_pos p g).
Proof.
  unfold generateProbabilityTable. apply probability_rows_frame.
  repeat constructor; discriminate.
Qed.

Arguments generateProbabilityTable : simpl never.

Lemma displayHelp_run (env : Env) (g : Game) :
  exists rows p,
    displayHelp env g
    = (Normal tt,
       guess_prompted (OutHelpTable rows :: OutHelpIntro :: console g)
         (set_math_pos p g)).
Proof.
  unfold displayHelp. unfold bind at 1. cbn [console_log modify].
  unfold bind at 1.
  destruct (generateProbabilityTable_frame env
              (set_console (OutHelpIntro :: console g) g)) as (rows & p & ->).
  exists rows, p. reflexivity.
Qed.

(** *** Array access and [splice] *)

Lemma firstn_skipn_nth {A} (a : list A) (k : nat) (d : A) :
  nth_error a k = Some d -> firstn 1 (skipn k a) = [d].
Proof.
  revert a. induction k as [|k IH]; intros [|x a] H; try discriminate.
  - now inversion H.
  - now apply IH.
Qed.

Lemma index_splice {A} (a : list A) (x : number) (d : A) :
  index a x = Some d ->
  exists i : nat,
    to_Z x = Some (Z.of_nat i)
    /\ nth_error a i = Some d
    /\ splice_one a x = ([d], firstn i a ++ skipn (S i) a).
Proof.
  unfold index, to_Z, splice_one.
  destruct x as [| |q]; try discriminate.
  destruct (Qnum q mod Zpos (Qden q) =? 0) eqn:Hm; [|discriminate].
  destruct (0 <=? Qnum q / Zpos (Qden q)) eqn:Hp; [|discriminate].
  apply Z.leb_le in Hp. intros Hn.
  assert (Hq : 0 <= Qnum q).
  { destruct (Z.neg_nonneg_cases (Qnum q)) as [Hneg|]; [|easy].
    pose proof (Z.div_lt_upper_bound (Qnum q) (Zpos (Qden q)) 0 ltac:(lia) ltac:(lia)).
    lia. }
  rewrite Z.quot_div_nonneg by lia.
  set (i := Qnum q / Zpos (Qden q)) in *.
  assert (Hlt : (Z.to_nat i < List.length a)%nat).
  { apply nth_error_Some. now rewrite Hn. }
  exists (Z.to_nat i). rewrite Z2Nat.id by easy. split; [reflexivity|]. split; [easy|].
  replace (i <? 0) with false by (symmetry; apply Z.ltb_ge; lia).
  rewrite Z.min_l by lia.
  now rewrite (firstn_skipn_nth a (Z.to_nat i) d Hn).
Qed.

Lemma index_not_NaN {A} (a : list A) (x : number) (d : A) :
  index a x = Some d -> Number_isNaN x = false.
Proof. destruct x; [discriminate|reflexivity|reflexivity]. Qed.

Lemma index_NaN {A} (a : list A) (x : number) :
  Number_isNaN x = true -> index a x = None.
Proof. destruct x; [reflexivity|discriminate|discriminate]. Qed.

(** *** Dice selection and first move *)

Lemma isValidDiceChoice_run (a : jsstring) (pool : list Dice) (g : Game) :
  diceSet g = Some pool ->
  isValidDiceChoice a g
  = (Normal (match index pool (parseInt a) with Some _ => true | None => false end), g).
Proof.
  intros H. unfold isValidDiceChoice.
  destruct (Number_isNaN (parseInt a)) eqn:N.
  - now rewrite index_NaN.
  - unfold bind, get, defined. now rewrite H.
Qed.

Lemma on_exit_dice (env : Env) (a : jsstring) (g : Game) :
  is_exit a = true -> on_dice env a g = (Normal tt, closed_with OutExiting g).
Proof. intros H. unfold on_dice. now rewrite H. Qed.

Lemma on_dice_accepted (env : Env) (a : jsstring) (pool : list Dice) (d : Dice)
                       (g : Game) :
  is_exit a = false -> diceSet g = Some pool ->
  index pool (parseInt a) = Some d ->
  on_dice env a g = (Normal tt, dice_chosen env (parseInt a) pool d g).
Proof.
  intros X P I. unfold on_dice. rewrite X. unfold bind at 1.
  rewrite (isValidDiceChoice_run a pool g P), I.
  unfold bind at 1, get. unfold bind at 1, defined. rewrite P. unfold ret.
  destruct (index_splice pool (parseInt a) d I) as (i & _ & _ & Hs).
  unfold dice_chosen. rewrite Hs. reflexivity.
Qed.

Lemma on_dice_rejected (env : Env) (a : jsstring) (pool : list Dice) (g : Game) :
  is_exit a = false -> diceSet g = Some pool ->
  index pool (parseInt a) = None ->
  on_dice env a g
  = (Normal tt, dice_prompted pool (OutInvalidDiceChoice :: console g) g).
Proof.
  intros X P I. unfold on_dice. rewrite X. unfold bind at 1.
  rewrite (isValidDiceChoice_run a pool g P), I.
  unfold bind at 1. cbn [console_log modify].
  rewrite chooseDice_run. cbn. now rewrite P.
Qed.

Lemma on_exit_guess (env : Env) (a : jsstring) (g : Game) :
  is_exit a = true -> on_guess env a g = (Normal tt, closed_with OutExiting g).
Proof. intros H. unfold on_guess. now rewrite H. Qed.

Lemma on_guess_help (env : Env) (a : jsstring) (g : Game) :
  is_exit a = false -> str_eqb a (lit "?") = true ->
  exists rows p,
    on_guess env a g
    = (Normal tt,
       guess_prompted (OutHelpTable rows :: OutHelpIntro :: console g)
         (set_math_pos p g)).
Proof.
  intros X H. unfold on_guess. rewrite X, H. apply displayHelp_run.
Qed.

Lemma on_guess_resolved (env : Env) (a : jsstring) (pool : list Dice) (g : Game) :
  is_exit a = false -> str_eqb a (lit "?") = false ->
  str_eqb a (lit "0") || str_eqb a (lit "1") = true ->
  diceSet g = Some pool ->
  on_guess env a g = (Normal tt, first_move_resolved (parseInt a) pool g).
Proof.
  intros X H V P. unfold on_guess. rewrite X, H, V.
  unfold resolveFirstMove, first_move_resolved.
  unfold bind at 1, get. unfold bind at 1. unfold bind at 1.
  cbn [console_log modify]. unfold bind at 1.
  destruct (match compChoice g with Some z => _ | None => true end);
    cbn [console_log modify ret]; rewrite chooseDice_run; cbn; now rewrite P.
Qed.

Lemma on_guess_rejected (env : Env) (a : jsstring) (g : Game) :
  is_exit a = false -> str_eqb a (lit "?") = false ->
  str_eqb a (lit "0") || str_eqb a (lit "1") = false ->
  on_guess env a g = (Normal tt, guess_prompted (OutInvalidGuess :: console g) g).
Proof.
  intros X H V. unfold on_guess. rewrite X, H, V. reflexivity.
Qed.

(** *** Removing one element *)

Lemma nth_error_decompose {A} (l : list A) (i : nat) (d : A) :
  nth_error l i = Some d -> l = firstn i l ++ d :: skipn (S i) l.
Proof.
  revert l. induction i as [|i IH]; intros [|x l] H; try discriminate.
  - now inversion H.
  - cbn. f_equal. now apply IH.
Qed.

Lemma remove_at_length {A} (l : list A) (i : nat) (d : A) :
  nth_error l i = Some d ->
  (List.length (firstn i l ++ skipn (S i) l) + 1 = List.length l)%nat.
Proof.
  intros H. rewrite (nth_error_decompose l i d H) at 3.
  rewrite !length_app. cbn. lia.
Qed.

Lemma remove_at_NoDup {A} (l : list A) (i : nat) (d : A) :
  nth_error l i = Some d -> NoDup l ->
  ~ In d (firstn i l ++ skipn (S i) l) /\ NoDup (firstn i l ++ skipn (S i) l).
Proof.
  intros H N. rewrite (nth_error_decompose l i d H) in N.
  split; [now apply NoDup_remove_2 | now apply NoDup_remove_1 with d].
Qed.

Lemma preset_NoDup : NoDup preset.
Proof.
  unfold preset. repeat constructor; cbn; intuition discriminate.
Qed.

(** ** Decimal numerals *)

Lemma digit_char (r : Z) :
  0 <= r < 10 ->
  is_digit (Z.to_N (48 + r)) = true /\ digit_val (Z.to_N (48 + r)) = r.
Proof.
  intros H. unfold is_digit, digit_val. split; [|lia].
  apply andb_true_iff. split; apply N.leb_le; lia.
Qed.

Lemma digits_rev_spec (f : nat) :
  forall n, 0 <= n < 2 ^ Z.of_nat (S f) ->
    forallb is_digit (digits_rev (S f) n) = true
    /\ little_endian_value (digits_rev (S f) n) = n
    /\ (0 < n -> last (digits_rev (S f) n) c_zero <> c_zero).
Proof.
  induction f as [|f IH]; intros n Hn.
  - assert (n < 10) by (change (2 ^ Z.of_nat 1) with 2 in Hn; lia).
    assert (Hr : 0 <= n mod 10 < 10) by (apply Z.mod_pos_bound; lia).
    destruct (digit_char (n mod 10) Hr) as (D & V).
    cbn [digits_rev]. replace (n <? 10) with true by (symmetry; apply Z.ltb_lt; lia).
    unfold little_endian_value. cbn [forallb fold_right last]. rewrite D, V.
    rewrite Z.mod_small by lia. repeat split; try lia.
    intros Hp E. unfold c_zero in E. lia.
  - assert (Hr : 0 <= n mod 10 < 10) by (apply Z.mod_pos_bound; lia).
    destruct (digit_char (n mod 10) Hr) as (D & V).
    change (digits_rev (S (S f)) n)
      with (Z.to_N (48 + n mod 10)
            :: (if n <? 10 then [] else digits_rev (S f) (n / 10))).
    destruct (n <? 10) eqn:L.
    + apply Z.ltb_lt in L. unfold little_endian_value.
      cbn [forallb fold_right last]. rewrite D, V.
      rewrite Z.mod_small by lia. repeat split; try lia.
      intros Hp E. unfold c_zero in E. lia.
    + apply Z.ltb_ge in L.
      assert (Hq : 0 <= n / 10 < 2 ^ Z.of_nat (S f)).
      { split; [apply Z.div_pos; lia|].
        apply Z.div_lt_upper_bound; [lia|].
        rewrite (Nat2Z.inj_succ (S f)), Z.pow_succ_r in Hn by lia. lia. }
      destruct (IH (n / 10) Hq) as (D' & V' & L').
      unfold little_endian_value in *. cbn [forallb fold_right]. rewrite D, V, D', V'.
      repeat split.
      * pose proof (Z.div_mod n 10). lia.
      * intros _. assert (Hpos : 0 < n / 10) by (apply Z.div_str_pos; lia).
        specialize (L' Hpos).
        destruct (digits_rev (S f) (n / 10)) eqn:E; [discriminate|].
        exact L'.
Qed.

Lemma hd_error_rev_last {A} (l : list A) (d : A) :
  l <> [] -> hd_error (rev l) = Some (last l d).
Proof.
  induction l as [|x l IH]; [easy|]. intros _.
  destruct l as [|y l]; [reflexivity|].
  change (rev (x :: y :: l)) with (rev (y :: l) ++ [x]).
  change (last (x :: y :: l) d) with (last (y :: l) d).
  rewrite <- IH by discriminate.
  destruct (rev (y :: l)) eqn:E; [|reflexivity].
  apply (f_equal (@List.length A)) in E. rewrite length_rev in E. discriminate.
Qed.

Lemma digits_value_rev (l : jsstring) :
  digits_value 10 digit_val (rev l) = little_endian_value l.
Proof.
  unfold digits_value, little_endian_value.
  rewrite <- (rev_involutive l) at 2.
  symmetry. apply (fold_left_rev_right (fun c acc => 10 * acc + digit_val c)).
Qed.

Lemma fuel_enough (n : Z) :
  0 <= n -> 0 <= n < 2 ^ Z.of_nat (S (Z.to_nat (Z.log2 n))).
Proof.
  intros H. split; [easy|].
  rewrite Nat2Z.inj_succ, Z2Nat.id by apply Z.log2_nonneg.
  destruct (Z.eq_dec n 0) as [->|]; [reflexivity|].
  apply Z.log2_spec. lia.
Qed.

(** [toString] of a non-negative integer is its decimal numeral, without
    leading zeros. *)
Lemma toString_canonical (n : Z) :
  0 <= n -> canonical_decimal (toString n) n.
Proof.
  intros H. unfold toString, canonical_decimal.
  replace (n <? 0) with false by (symmetry; apply Z.ltb_ge; lia).
  set (f := Z.to_nat (Z.log2 n)).
  destruct (digits_rev_spec f n (fuel_enough n H)) as (D & V & L).
  assert (Hne : digits_rev (S f) n <> []) by (cbn; discriminate).
  repeat split.
  - intros E. apply Hne. apply (f_equal (@rev N)) in E.
    now rewrite rev_involutive in E.
  - apply forallb_forall. intros c Hc. apply in_rev in Hc.
    now apply (proj1 (forallb_forall _ _) D).
  - now rewrite digits_value_rev.
  - rewrite (hd_error_rev_last _ c_zero Hne). intros [= E].
    destruct (Z.eq_dec n 0) as [->|Hz]; [reflexivity|].
    exfalso. apply L; [lia|exact E].
Qed.

Lemma readUInt32BE_nonneg (bs : list byte) : 0 <= readUInt32BE bs.
Proof.
  unfold readUInt32BE.
  assert (H : forall acc, 0 <= acc ->
            0 <= fold_left (fun acc b => 256 * acc + Z.of_N (Byte.to_N b)) bs acc).
  { induction bs as [|b bs IH]; intros acc Hacc; [exact Hacc|].
    cbn [fold_left]. apply IH. lia. }
  apply H. lia.
Qed.

Lemma fresh_value_nonneg (env : Env) (pos : nat) (range : Z) :
  0 < range -> 0 <= fresh_value env pos range < range.
Proof.
  intros H. unfold fresh_value, rem.
  apply Z.rem_bound_pos; [apply readUInt32BE_nonneg|exact H].
Qed.

(** ** The invariant of a session *)

Lemma integer_input_error_cases (a : jsstring) (o : Output) :
  integer_input_error a = Some o -> o = OutInvalidNumber \/ o = OutOutOfRange.
Proof.
  unfold integer_input_error.
  destruct (_ || _ || _ || _); [intros [= <-]; now left|].
  destruct (_ || _); [intros [= <-]; now right|discriminate].
Qed.

Ltac invariant_goals :=
  repeat match goal with
         | |- _ /\ _ => split
         | |- rl_closed _ = false -> _ => intros _
         | |- true = false -> _ => discriminate
         | |- True => exact I
         end;
  try solve [ assumption | reflexivity | discriminate
            | apply toString_canonical; assumption
            | apply fresh_value_nonneg; lia
            | intros; congruence
            | cbn; lia
            | repeat eexists;
              first [ eassumption | reflexivity
                    | apply fresh_value_nonneg; lia ] ].

Lemma closed_invariant (env : Env) (o : Output) (g : Game) :
  session_invariant env g ->
  match o with
  | OutExiting | OutIWin | OutYouWin _ _ => True
  | _ => False
  end ->
  session_invariant env (closed_with o g).
Proof.
  intros (R & C & U & _) Ho. unfold session_invariant.
  destruct o; try contradiction; cbn; repeat split; auto; discriminate.
Qed.

Lemma started_invariant (env : Env) :
  session_invariant env (started env new_DiceGame).
Proof.
  unfold session_invariant. cbn. invariant_goals.
Qed.

Lemma line_invariant (env : Env) (a : jsstring) (g : Game) :
  session_invariant env g ->
  exists g', line env a g = (Normal tt, g') /\ session_invariant env g'.
Proof.
  intros Inv. unfold line.
  destruct (rl_closed g) eqn:Hc; [eauto|].
  destruct (pending g) as [q|] eqn:Hq; [|eauto].
  assert (Inv0 : session_invariant env (set_pending None g)).
  { destruct Inv as (R & C & U & _). repeat split; auto. }
  destruct Inv as (R & C & U & P). specialize (P Hc). rewrite Hq in P.
  destruct (is_exit a) eqn:X.
  { exists (closed_with OutExiting (set_pending None g)).
    split; [|now apply closed_invariant].
    destruct q; cbn [callback];
      [apply on_exit_guess | apply on_exit_dice | apply on_exit_comp
      | apply on_exit_user]; assumption. }
  destruct q as [| |c|cr c]; cbn [callback].
  - (* the guess *)
    destruct P as (Pd & Pc & Pu & k & v & Pk & Pv & Pn & Pt).
    destruct (str_eqb a (lit "?")) eqn:H.
    { destruct (on_guess_help env a (set_pending None g) X H) as (rows & p & ->).
      eexists; split; [reflexivity|].
      unfold session_invariant. cbn. invariant_goals. }
    destruct (str_eqb a (lit "0") || str_eqb a (lit "1")) eqn:V.
    + rewrite (on_guess_resolved env a preset (set_pending None g) X H V Pd).
      eexists; split; [reflexivity|].
      unfold session_invariant, first_move_resolved. cbn. rewrite Pv, Pk.
      destruct (negb _); cbn; rewrite ?Pc; invariant_goals.
    + rewrite (on_guess_rejected env a (set_pending None g) X H V).
      eexists; split; [reflexivity|].
      unfold session_invariant. cbn. invariant_goals.
  - (* the dice *)
    destruct P as (Pd & Pc & Pu).
    destruct (index preset (parseInt a)) as [d|] eqn:I.
    + rewrite (on_dice_accepted env a preset d (set_pending None g) X Pd I).
      eexists; split; [reflexivity|].
      destruct (index_splice preset (parseInt a) d I) as (i & _ & Hn & Hs).
      destruct (remove_at_NoDup preset i d Hn preset_NoDup) as (Hnin & _).
      pose proof (remove_at_length preset i d Hn) as Hlen.
      unfold session_invariant, dice_chosen. rewrite Hs. cbn [snd].
      set (rest := firstn i preset ++ skipn (S i) preset) in *.
      cbn. rewrite Pc. cbn. invariant_goals.
      destruct rest as [|d' rest']; [cbn in Hlen; lia|cbn; eauto].
    + rewrite (on_dice_rejected env a preset (set_pending None g) X Pd I).
      eexists; split; [reflexivity|].
      unfold session_invariant. cbn. invariant_goals.
  - (* the computer's sub-round *)
    destruct P as ((ud & Pu) & (cd & Pd) & Pn & k & Pk & Pt).
    destruct (integer_input_error a) as [o|] eqn:E.
    + rewrite (on_comp_round_rejected env c a o (set_pending None g) X E).
      eexists; split; [reflexivity|].
      unfold session_invariant.
      destruct (integer_input_error_cases a o E) as [-> | ->];
        cbn; invariant_goals.
    + rewrite (on_comp_round_accepted env c a (set_pending None g) X E).
      cbn [compDice set_pending]. rewrite Pd.
      eexists; split; [reflexivity|].
      unfold session_invariant. cbn. rewrite Pk. invariant_goals.
  - (* the human's sub-round *)
    destruct P as ((ud & Pu) & (cd & Pd) & Pn & k & Pk & Pt).
    destruct (integer_input_error a) as [o|] eqn:E.
    + rewrite (on_user_round_rejected env cr c a o (set_pending None g) X E).
      eexists; split; [reflexivity|].
      unfold session_invariant.
      destruct (integer_input_error_cases a o E) as [-> | ->];
        cbn; invariant_goals.
    + rewrite (on_user_round_accepted env cr c a (set_pending None g) X E).
      cbn [userDice set_pending]. rewrite Pu.
      eexists; split; [reflexivity|].
      unfold session_invariant, user_rolled.
      destruct (js_gt _ cr); cbn; rewrite Pk; invariant_goals.
Qed.

Lemma lines_invariant (env : Env) (answers : list jsstring) (g : Game) :
  session_invariant env g ->
  exists g', lines env answers g = (Normal tt, g') /\ session_invariant env g'.
Proof.
  revert g. induction answers as [|a rest IH]; intros g Inv.
  - exists g. now split.
  - destruct (line_invariant env a g Inv) as (g1 & H1 & Inv1).
    destruct (IH g1 Inv1) as (g2 & H2 & Inv2).
    exists g2. split; [|exact Inv2].
    cbn [lines]. unfold bind. now rewrite H1.
Qed.

(** Every session started with a string runs without an uncaught exception
    and ends in a state that satisfies the invariant. *)
Lemma main_invariant (env : Env) (input : jsstring) (answers : list jsstring) :
  exists g, main env (Some input) answers = (Normal tt, g)
            /\ session_invariant env g.
Proof.
  unfold main. unfold bind at 1. rewrite startGame_string.
  destruct (valid_dice_input input).
  - apply lines_invariant, started_invariant.
  - apply lines_invariant.
    unfold session_invariant. cbn. repeat split; auto; discriminate.
Qed.

(** ** [parseInt] on decimal numerals *)

Lemma digit_cases (c : N) :
  is_digit c = true ->
  (c = 48 \/ c = 49 \/ c = 50 \/ c = 51 \/ c = 52 \/ c = 53 \/ c = 54
   \/ c = 55 \/ c = 56 \/ c = 57)%N.
Proof.
  unfold is_digit. intros H. apply andb_true_iff in H as (H1 & H2).
  apply N.leb_le in H1, H2. lia.
Qed.

Lemma digit_plain (c : N) :
  is_digit c = true ->
  is_white c = false /\ N.eqb c c_minus = false /\ N.eqb c c_plus = false
  /\ N.eqb c 120 = false /\ N.eqb c 88 = false.
Proof.
  intros H. apply digit_cases in H.
  repeat destruct H as [H|H]; subst; repeat split.
Qed.

Lemma span_all (f : N -> bool) (s : jsstring) :
  forallb f s = true -> span f s = (s, []).
Proof.
  induction s as [|c s IH]; [reflexivity|]. cbn. intros H.
  apply andb_true_iff in H as (Hc & Hs). now rewrite Hc, IH.
Qed.

Lemma parseInt_signed_digits (neg : bool) (ds : jsstring) :
  ds <> [] -> forallb is_digit ds = true ->
  parseInt ((if neg then [c_minus] else []) ++ ds)
  = make_number neg (digits_value 10 digit_val ds) 1.
Proof.
  intros Hne Hd. destruct ds as [|c ds]; [easy|clear Hne].
  pose proof Hd as Hd'. cbn [forallb] in Hd'.
  apply andb_true_iff in Hd' as (Hc & Hds).
  destruct (digit_plain c Hc) as (W & M & P & _).
  assert (Hhex : starts_with (lit "0x") (c :: ds) || starts_with (lit "0X") (c :: ds)
                 = false).
  { change (lit "0x") with [48%N; 120%N]. change (lit "0X") with [48%N; 88%N].
    destruct ds as [|c' ds]; cbn [starts_with].
    - now rewrite !andb_false_r.
    - cbn [forallb] in Hds. apply andb_true_iff in Hds as (Hc' & _).
      destruct (digit_plain c' Hc') as (_ & _ & _ & X1 & X2).
      rewrite (N.eqb_sym 120), (N.eqb_sym 88), X1, X2.
      now rewrite !andb_false_r. }
  unfold parseInt.
  assert (Hsign : take_sign (trim_start ((if neg then [c_minus] else []) ++ c :: ds))
                  = (neg, c :: ds)).
  { destruct neg; cbn.
    - reflexivity.
    - rewrite W. cbn. now rewrite M, P. }
  rewrite Hsign, Hhex, (span_all is_digit (c :: ds) Hd). reflexivity.
Qed.

Lemma binade_integer (n : Z) : 0 < n -> binade n 1 = Z.log2 n.
Proof.
  intros H. unfold binade. change (Z.log2 1) with 0. rewrite Z.sub_0_r.
  pose proof (Z.log2_nonneg n). pose proof (Z.log2_spec n H) as [L _].
  replace (0 <=? Z.log2 n) with true by (symmetry; apply Z.leb_le; lia).
  replace (1 * 2 ^ Z.log2 n <=? n) with true by (symmetry; apply Z.leb_le; lia).
  reflexivity.
Qed.

Lemma round_half_even_lower (num den : Z) :
  0 < den -> num / den <= round_half_even num den.
Proof.
  intros H. unfold round_half_even.
  destruct (2 * (num mod den) ?= den); [destruct (Z.even _)| |]; lia.
Qed.

Lemma round_half_even_one (num : Z) : round_half_even num 1 = num.
Proof.
  unfold round_half_even. rewrite Z.mod_1_r, Z.div_1_r. reflexivity.
Qed.

(** An integer above 5 is above 5 as a Number, and a negative integer is
    negative as a Number, however large they are. *)
Lemma make_number_integer_bounds (n : Z) :
  (5 < n -> gt_Z (make_number false n 1) 5 = true)
  /\ (0 < n -> lt_Z (make_number true n 1) 0 = true).
Proof.
  assert (Hgen : 0 < n ->
    (5 < n -> gt_Z (make_number false n 1) 5 = true)
    /\ lt_Z (make_number true n 1) 0 = true).
  { intros Hn. unfold make_number, round_magnitude.
    replace (n =? 0) with false by (symmetry; apply Z.eqb_neq; lia).
    rewrite (binade_integer n Hn).
    pose proof (Z.log2_nonneg n) as Hl. pose proof (Z.log2_spec n Hn) as [L _].
    rewrite Z.max_l by lia.
    destruct (0 <=? Z.log2 n - 52) eqn:He.
    - pose proof He as He'. apply Z.leb_le in He'. set (e := Z.log2 n - 52) in *.
      assert (Hp : 0 < 2 ^ e) by (apply Z.pow_pos_nonneg; lia).
      assert (Hm : 2 ^ 52 <= round_half_even n (1 * 2 ^ e)).
      { etransitivity; [|apply round_half_even_lower; lia].
        apply Z.div_le_lower_bound; [lia|].
        replace (Z.log2 n) with (e + 52) in L by (unfold e; lia).
        rewrite Z.pow_add_r in L by lia. lia. }
      set (m := round_half_even n (1 * 2 ^ e)) in *.
      assert (H52 : 2 ^ 52 = 4503599627370496) by reflexivity.
      destruct (true && (2 ^ 1024 <=? m * 2 ^ e)); [split; reflexivity|].
      cbv beta iota. rewrite He.
      unfold gt_Z, lt_Z, Qcompare. cbn [Qnum Qden inject_Z].
      split.
      + intros _. replace (1 * m * 2 ^ e * 1 ?= 5 * 1) with Gt; [reflexivity|].
        symmetry. apply Z.compare_gt_iff. nia.
      + replace (-1 * m * 2 ^ e * 1 ?= 0 * 1) with Lt; [reflexivity|].
        symmetry. apply Z.compare_lt_iff. nia.
    - pose proof He as He'. apply Z.leb_gt in He'.
      rewrite round_half_even_one. cbn [andb]. cbv beta iota. rewrite He.
      set (k := - (Z.log2 n - 52)) in *.
      assert (Hp : 0 < 2 ^ k) by (apply Z.pow_pos_nonneg; unfold k; lia).
      unfold gt_Z, lt_Z.
      change (inject_Z 5) with (Qred (inject_Z 5)).
      change (inject_Z 0) with (Qred (inject_Z 0)).
      rewrite <- !Qred_compare.
      unfold Qcompare. cbn [Qnum Qden inject_Z].
      rewrite Z2Pos.id by exact Hp.
      split.
      + intros H5. replace (1 * (n * 2 ^ k) * 1 ?= 5 * 2 ^ k) with Gt; [reflexivity|].
        symmetry. apply Z.compare_gt_iff. nia.
      + replace (-1 * (n * 2 ^ k) * 1 ?= 0 * 2 ^ k) with Lt; [reflexivity|].
        symmetry. apply Z.compare_lt_iff. nia. }
  split; intros H; apply Hgen; lia.
Qed.

(** The decimal numeral of an integer outside [[0,5]] is rejected by
    [parseIntegerInput]. *)
Lemma out_of_range_rejected (z : Z) :
  z < 0 \/ 5 < z -> integer_input_error (toString z) <> None.
Proof.
  intros Hz. unfold integer_input_error.
  destruct (_ || _ || _ || _); [discriminate|].
  assert (Hr : lt_Z (parseInt (toString z)) 0 || gt_Z (parseInt (toString z)) 5
               = true).
  { unfold toString. destruct (z <? 0) eqn:S.
    - apply Z.ltb_lt in S.
      destruct (toString_canonical (- z) ltac:(lia)) as (Hne & Hd & Hv & _).
      unfold toString in Hne, Hd, Hv.
      replace (- z <? 0) with false in * by (symmetry; apply Z.ltb_ge; lia).
      pose proof (parseInt_signed_digits true _ Hne Hd) as Hp.
      cbn [app] in Hp. rewrite Hp, Hv.
      rewrite (proj2 (make_number_integer_bounds (- z))) by lia. reflexivity.
    - apply Z.ltb_ge in S.
      destruct (toString_canonical z S) as (Hne & Hd & Hv & _).
      unfold toString in Hne, Hd, Hv.
      replace (z <? 0) with false in * by (symmetry; apply Z.ltb_ge; lia).
      pose proof (parseInt_signed_digits false _ Hne Hd) as Hp.
      cbn [app] in Hp. rewrite Hp, Hv.
      rewrite (proj1 (make_number_integer_bounds z)) by lia.
      apply orb_true_r. }
  rewrite Hr. discriminate.
Qed.

(** ** Invalid input during the roll exchange *)

Lemma invalid_input_rejected (a : jsstring) :
  invalid_numeric_input a -> exists o, integer_input_error a = Some o.
Proof.
  intros H.
  assert (E : integer_input_error a <> None).
  { destruct H as [s H|s H|s H|z H].
    - unfold integer_input_error. rewrite H.
      now rewrite orb_true_r.
    - unfold integer_input_error. rewrite H.
      now rewrite orb_true_r.
    - unfold integer_input_error. rewrite H.
      now rewrite orb_true_r.
    - now apply out_of_range_rejected. }
  destruct (integer_input_error a) as [o|]; [eauto|easy].
Qed.

Lemma phase_RollExchange (g : Game) :
  phase g = RollExchange ->
  rl_closed g = false
  /\ ((exists c, pending g = Some (QCompRound c))
      \/ (exists cr c, pending g = Some (QUserRound cr c))).
Proof.
  unfold phase. destruct (rl_closed g); [discriminate|].
  destruct (pending g) as [[| |c|cr c]|]; try discriminate; eauto.
Qed.

(** C1, as stated, fails: after the invalid input ["abc"] in the computer's
    sub-round the pending commitment is not the one that was pending before,
    and after the invalid input ["1,2"] in the human's sub-round the
    computer's roll of that round is gone with the closure that held it. *)
Lemma invalid_input_replaces_commitment :
  phase sample_comp_round = RollExchange
  /\ invalid_numeric_input (lit "abc")
  /\ pending_commitment (snd (line sample_env (lit "abc") sample_comp_round))
     <> pending_commitment sample_comp_round
  /\ pending sample_comp_round = Some (QCompRound 4)
  /\ pending (snd (line sample_env (lit "abc") sample_comp_round))
     = Some (QCompRound 2)
  /\ pending sample_user_round = Some (QUserRound (Some 1) 2)
  /\ invalid_numeric_input (lit "1,2")
  /\ pending (snd (line sample_env (lit "1,2") sample_user_round))
     = Some (QCompRound 4).
Proof.
  split; [reflexivity|].
  split; [apply invalid_not_a_number; reflexivity|].
  split; [vm_compute; discriminate|].
  split; [reflexivity|]. split; [reflexivity|]. split; [reflexivity|].
  split; [apply invalid_comma; reflexivity|].
  reflexivity.
Qed.

(** C1, amended: every invalid input at a numeric prompt of the roll
    exchange, other than the exit command, is rejected and the round is
    started again: the phase stays [RollExchange], pool and assigned dice
    are unchanged, no die is rolled, and the pending commitment is not
    revealed; it is dropped, and a fresh commitment (new secret, new value,
    new tag) is generated and disclosed for the retry.  The state is the one
    [playRound] leaves, entered after the error message: in the human's
    sub-round as in the computer's, the prompt that follows is the one of
    the computer's sub-round, for the fresh committed value. *)
Theorem invalid_contribution_restarts_round
    (env : Env) (g : Game) (a : jsstring)
    (Hphase : phase g = RollExchange)
    (Hexit : is_exit a = false)
    (Hinvalid : invalid_numeric_input a) :
  exists o g',
    line env a g = (Normal tt, g')
    /\ (o = OutInvalidNumber \/ o = OutOutOfRange)
    /\ phase g' = RollExchange
    /\ (diceSet g', userDice g', compDice g') = (diceSet g, userDice g, compDice g)
    /\ math_pos g' = math_pos g
    /\ console g'
       = OutCommit 5 (fresh_tag env (crypto_pos g) 6) :: OutMyRollTime :: o
         :: console g
    /\ pending_commitment g'
       = Some (Some (fresh_key env (crypto_pos g)),
               fresh_value env (crypto_pos g) 6,
               Some (fresh_tag env (crypto_pos g) 6))
    /\ crypto_pos g' = (crypto_pos g + 32 + 4)%nat
    /\ playRound env (set_console (o :: console g) (set_pending None g))
       = (Normal tt, g')
    /\ g' = restarted env (set_console (o :: console g) (set_pending None g))
    /\ pending g' = Some (QCompRound (fresh_value env (crypto_pos g) 6)).
Proof.
  destruct (invalid_input_rejected a Hinvalid) as (o & E).
  destruct (phase_RollExchange g Hphase) as (Hc & [(c & Hq) | (cr & c & Hq)]);
    exists o, (restarted env (set_console (o :: console g) (set_pending None g)));
    (split; [|split; [exact (integer_input_error_cases a o E)|]]).
  - unfold line. rewrite Hc, Hq. cbn [callback].
    now rewrite (on_comp_round_rejected env c a o _ Hexit E).
  - unfold phase. rewrite playRound_run. cbn. rewrite Hc. repeat split.
  - unfold line. rewrite Hc, Hq. cbn [callback].
    now rewrite (on_user_round_rejected env cr c a o _ Hexit E).
  - unfold phase. rewrite playRound_run. cbn. rewrite Hc. repeat split.
Qed.

Lemma invalid_contribution_restarts_round_witness :
  phase sample_user_round = RollExchange
  /\ is_exit (lit "1,2") = false
  /\ invalid_numeric_input (lit "1,2")
  /\ exists o g',
       line sample_env (lit "1,2") sample_user_round = (Normal tt, g')
       /\ (o = OutInvalidNumber \/ o = OutOutOfRange)
       /\ phase g' = RollExchange
       /\ pending g'
          = Some (QCompRound (fresh_value sample_env
                                (crypto_pos sample_user_round) 6)).
Proof.
  split; [reflexivity|]. split; [reflexivity|].
  split; [apply invalid_comma; reflexivity|].
  destruct (invalid_contribution_restarts_round sample_env sample_user_round
              (lit "1,2") eq_refl eq_refl
              (invalid_comma (lit "1,2") eq_refl))
    as (o & g' & H1 & H2 & H3 & _ & _ & _ & _ & _ & _ & _ & H4).
  exists o, g'. repeat split; assumption.
Defined.

(** ** The outcome *)

(** C2: when both rolls have been produced, the last message of the session
    is "You win" if and only if the human's roll is strictly greater than
    the computer's; otherwise, equal rolls included, it is "I win". *)
Theorem outcome_strictly_greater
    (env : Env) (g : Game) (a : jsstring) (d : Dice) (compRoll userRoll c : Z)
    (Hopen : rl_closed g = false)
    (Hpending : pending g = Some (QUserRound (Some compRoll) c))
    (Hdie : userDice g = Some d)
    (Hroll : face env (math_pos g) d = Some userRoll)
    (Hexit : is_exit a = false)
    (Hvalid : integer_input_error a = None) :
  exists g',
    line env a g = (Normal tt, g')
    /\ phase g' = Done
    /\ In (OutYourRoll (Some userRoll)) (console g')
    /\ (hd_error (console g') = Some (OutYouWin (Some userRoll) (Some compRoll))
        <-> compRoll < userRoll)
    /\ (hd_error (console g') = Some OutIWin <-> userRoll <= compRoll)
    /\ (userRoll = compRoll -> hd_error (console g') = Some OutIWin).
Proof.
  eexists. split.
  { unfold line. rewrite Hopen, Hpending. cbn [callback].
    rewrite (on_user_round_accepted env _ c a _ Hexit Hvalid).
    cbn [userDice set_pending]. rewrite Hdie. reflexivity. }
  unfold user_rolled. cbn [math_pos set_pending]. rewrite Hroll.
  unfold js_gt. split; [reflexivity|]. split; [cbn; auto|].
  destruct (compRoll <? userRoll) eqn:L; cbn.
  - apply Z.ltb_lt in L. repeat split; intros; try lia; try discriminate.
  - apply Z.ltb_ge in L. repeat split; intros; try lia; try discriminate;
      try reflexivity.
Qed.

Lemma outcome_strictly_greater_witness :
  rl_closed sample_user_round = false
  /\ pending sample_user_round = Some (QUserRound (Some 1) 2)
  /\ userDice sample_user_round = Some {| values := [2; 2; 4; 4; 9; 9] |}
  /\ face sample_env (math_pos sample_user_round)
          {| values := [2; 2; 4; 4; 9; 9] |} = Some 2
  /\ is_exit (lit "5") = false
  /\ integer_input_error (lit "5") = None
  /\ exists g',
       line sample_env (lit "5") sample_user_round = (Normal tt, g')
       /\ (hd_error (console g') = Some (OutYouWin (Some 2) (Some 1)) <-> 1 < 2).
Proof.
  repeat (split; [reflexivity|]).
  destruct (outcome_strictly_greater sample_env sample_user_round (lit "5")
              {| values := [2; 2; 4; 4; 9; 9] |} 1 2 2
              eq_refl eq_refl eq_refl eq_refl eq_refl eq_refl)
    as (g' & H1 & _ & _ & H2 & _).
  exists g'. split; assumption.
Defined.

(** ** The roll does not depend on the contribution *)

Lemma fairResult_combine (c u : Z) :
  fairResult c (of_Z u) = of_Z (combine c u 6).
Proof.
  unfold fairResult, to_Z, of_Z, inject_Z. cbn [Qnum Qden].
  rewrite Z.mod_1_r, Z.div_1_r. reflexivity.
Qed.

(** On the operands the program supplies, the remainder [%] is the residue
    modulo 6. *)
Lemma fairResult_mod (c u : Z) :
  0 <= c -> 0 <= u -> fairResult c (of_Z u) = of_Z ((c + u) mod 6).
Proof.
  intros Hc Hu. rewrite fairResult_combine. unfold combine, rem.
  now rewrite Z.rem_mod_nonneg by lia.
Qed.

(** C3: in both sub-rounds of the roll exchange the fair-result message for
    the contribution is written, and two accepted contributions lead to
    states that differ in nothing but that message: the roll message, the
    face drawn by the assigned die at the current position of [Math.random],
    is the same.  The value the message discloses is computed from the
    committed value [c] and the contribution: for a contribution [u] from 0
    to 5 it is [(c + u) mod 6]. *)
Theorem roll_ignores_contribution
    (env : Env) (g : Game) (a1 a2 : jsstring) (r : Output)
    (Hroll : roll_message env g = Some r)
    (Hexit1 : is_exit a1 = false) (Hexit2 : is_exit a2 = false)
    (Hvalid1 : integer_input_error a1 = None)
    (Hvalid2 : integer_input_error a2 = None) :
  exists g1 g2 f1 f2,
    line env a1 g = (Normal tt, g1)
    /\ line env a2 g = (Normal tt, g2)
    /\ fair_message g (parseInt a1) = Some f1
    /\ fair_message g (parseInt a2) = Some f2
    /\ In f1 (console g1) /\ In f2 (console g2)
    /\ In r (console g1) /\ In r (console g2)
    /\ set_console (without_fair (console g1)) g1
       = set_console (without_fair (console g2)) g2
    /\ (forall c u,
          pending g = Some (QCompRound c)
          \/ (exists cr, pending g = Some (QUserRound cr c)) ->
          0 <= c < 6 -> 0 <= u <= 5 ->
          (parseInt a1 = of_Z u ->
           f1 = OutFairResult c (of_Z u) (of_Z ((c + u) mod 6)))
          /\ (parseInt a2 = of_Z u ->
              f2 = OutFairResult c (of_Z u) (of_Z ((c + u) mod 6))))
    /\ (forall c u, 0 <= c < 6 -> 0 <= u <= 5 ->
          fairResult c (of_Z u) = of_Z ((c + u) mod 6)).
Proof.
  unfold roll_message in Hroll.
  destruct (rl_closed g) eqn:Hc; [discriminate|].
  destruct (pending g) as [[| |c|cr c]|] eqn:Hq; try discriminate.
  - destruct (compDice g) as [d|] eqn:Hd; [|discriminate].
    injection Hroll as <-.
    exists (comp_rolled env c (parseInt a1) d (set_pending None g)),
           (comp_rolled env c (parseInt a2) d (set_pending None g)).
    eexists _, _. unfold line, fair_message. rewrite Hc, Hq.
    cbn [callback].
    rewrite (on_comp_round_accepted env c a1 _ Hexit1 Hvalid1),
            (on_comp_round_accepted env c a2 _ Hexit2 Hvalid2).
    cbn [compDice set_pending]. rewrite Hd.
    split; [reflexivity|]. split; [reflexivity|].
    split; [reflexivity|]. split; [reflexivity|].
    split; [cbn; tauto|]. split; [cbn; tauto|].
    split; [cbn; tauto|]. split; [cbn; tauto|].
    split; [reflexivity|]. split.
    + intros c' u [[= <-]|(cr & [=])] Hc' Hu.
      split; intros ->; now rewrite fairResult_mod by lia.
    + intros; apply fairResult_mod; lia.
  - destruct (userDice g) as [d|] eqn:Hd; [|discriminate].
    injection Hroll as <-.
    exists (user_rolled env cr c (parseInt a1) d (set_pending None g)),
           (user_rolled env cr c (parseInt a2) d (set_pending None g)).
    eexists _, _. unfold line, fair_message. rewrite Hc, Hq.
    cbn [callback].
    rewrite (on_user_round_accepted env cr c a1 _ Hexit1 Hvalid1),
            (on_user_round_accepted env cr c a2 _ Hexit2 Hvalid2).
    cbn [userDice set_pending]. rewrite Hd.
    split; [reflexivity|]. split; [reflexivity|].
    split; [reflexivity|]. split; [reflexivity|].
    split; [unfold user_rolled; destruct (js_gt _ cr); cbn; tauto|].
    split; [unfold user_rolled; destruct (js_gt _ cr); cbn; tauto|].
    split; [unfold user_rolled; destruct (js_gt _ cr); cbn; tauto|].
    split; [unfold user_rolled; destruct (js_gt _ cr); cbn; tauto|].
    split; [unfold user_rolled; destruct (js_gt _ cr); reflexivity|]. split.
    + intros c' u [[=]|(cr' & [= _ <-])] Hc' Hu.
      split; intros ->; now rewrite fairResult_mod by lia.
    + intros; apply fairResult_mod; lia.
Qed.

Lemma roll_ignores_contribution_witness :
  roll_message sample_env sample_comp_round = Some (OutMyRoll (Some 1))
  /\ is_exit (lit "0") = false /\ is_exit (lit "5") = false
  /\ integer_input_error (lit "0") = None
  /\ integer_input_error (lit "5") = None
  /\ exists g1 g2,
       line sample_env (lit "0") sample_comp_round = (Normal tt, g1)
       /\ line sample_env (lit "5") sample_comp_round = (Normal tt, g2)
       /\ In (OutMyRoll (Some 1)) (console g1)
       /\ In (OutMyRoll (Some 1)) (console g2)
       /\ In (OutFairResult 4 (of_Z 0) (of_Z 4)) (console g1)
       /\ In (OutFairResult 4 (of_Z 5) (of_Z 3)) (console g2).
Proof.
  repeat (split; [reflexivity|]).
  destruct (roll_ignores_contribution sample_env sample_comp_round
              (lit "0") (lit "5") (OutMyRoll (Some 1))
              eq_refl eq_refl eq_refl eq_refl eq_refl)
    as (g1 & g2 & f1 & f2 & H1 & H2 & _ & _ & F1 & F2 & H3 & H4 & _ & P & _).
  destruct (P 4 0 (or_introl eq_refl)) as (P1 & _); [lia|lia|].
  destruct (P 4 5 (or_introl eq_refl)) as (_ & P2); [lia|lia|].
  rewrite (P1 eq_refl) in F1. rewrite (P2 eq_refl) in F2.
  exists g1, g2. repeat split; assumption.
Defined.

(** ** Commitments *)

(** C5: in every session, whatever is typed, each value and secret the
    program reveals reproduces the tag it disclosed before: the HMAC, keyed
    with the revealed secret, of the decimal numeral of the revealed value
    as [toString] writes it, which has no leading zeros.  Each commitment is
    made that way: the tag stored and disclosed by a fresh commitment is the
    HMAC of the fresh key and of [toString] of the fresh value. *)
Theorem revealed_value_reproduces_tag
    (env : Env) (argv2 : option jsstring) (answers : list jsstring) :
  reveals_verify env (console (snd (main env argv2 answers)))
  /\ (forall g : Game,
        exists v k g',
          commit6 env g = (Normal v, g')
          /\ key g' = Some k
          /\ hmac g' = Some (generateHMAC env k (toString v))
          /\ disclosed_tag (console g') = hmac g'
          /\ canonical_decimal (toString v) v)
  /\ (forall n : N, canonical_decimal (toString (Z.of_N n)) (Z.of_N n)).
Proof.
  split; [|split].
  - destruct argv2 as [s|]; [|exact I].
    destruct (main_invariant env s answers) as (g & -> & R & _). exact R.
  - intros g. eexists _, _, _. rewrite commit6_run.
    split; [reflexivity|]. cbn. repeat split.
    + apply toString_canonical, fresh_value_nonneg. lia.
    + apply toString_canonical, fresh_value_nonneg. lia.
    + apply toString_canonical, fresh_value_nonneg. lia.
    + apply toString_canonical, fresh_value_nonneg. lia.
  - intros n. apply toString_canonical. lia.
Qed.

(** A session of the sample world in which three commitments are revealed. *)
Example sample_session_reveals :
  List.length
    (filter (fun o => match o with
                      | OutMySelection _ _ | OutMyNumber _ _ => true
                      | _ => false
                      end)
       (console (snd (main sample_env (Some (lit "1,2,3"))
                        [lit "0"; lit "0"; lit "3"; lit "2"]))))
  = 3%nat.
Proof. reflexivity. Qed.

(** ** The dice pool *)

Lemma to_Z_of_Z (z : Z) : to_Z (of_Z z) = Some z.
Proof.
  unfold to_Z, of_Z, inject_Z. cbn [Qnum Qden].
  now rewrite Z.mod_1_r, Z.div_1_r.
Qed.

Lemma index_of_nat {A} (a : list A) (i : nat) :
  index a (of_Z (Z.of_nat i)) = nth_error a i.
Proof.
  unfold index. rewrite to_Z_of_Z.
  replace (0 <=? Z.of_nat i) with true by (symmetry; apply Z.leb_le; lia).
  now rewrite Nat2Z.id.
Qed.

Lemma takeByIndex_valid (pool : list Dice) (x : number) (d : Dice) :
  index pool x = Some d ->
  exists i : nat,
    to_Z x = Some (Z.of_nat i) /\ nth_error pool i = Some d
    /\ takeByIndex pool x = Some (d, firstn i pool ++ skipn (S i) pool).
Proof.
  intros H. destruct (index_splice pool x d H) as (i & Hi & Hn & Hs).
  exists i. unfold takeByIndex. rewrite H, Hs. now repeat split.
Qed.

(** Once the dice prompt is behind, no line changes the human's die, the
    pool, or the list of dice the console shows as handed out. *)
Lemma line_keeps_selection (env : Env) (a : jsstring) (g : Game) :
  selection_over g ->
  selection_over (snd (line env a g))
  /\ userDice (snd (line env a g)) = userDice g
  /\ diceSet (snd (line env a g)) = diceSet g
  /\ chosen (console (snd (line env a g))) = chosen (console g).
Proof.
  unfold selection_over, line.
  destruct (rl_closed g) eqn:Hc; [intros _; cbn; rewrite Hc; auto|].
  destruct (pending g) as [[| |c|cr c]|] eqn:Hq;
    intros [[=]|H]; try (now destruct H); clear H; cbn [callback].
  - destruct (is_exit a) eqn:X.
    { rewrite on_exit_comp by exact X. cbn. auto. }
    destruct (integer_input_error a) as [o|] eqn:E.
    { rewrite (on_comp_round_rejected env c a o _ X E).
      pose proof (integer_input_error_cases a o E) as [-> | ->]; cbn; auto. }
    rewrite (on_comp_round_accepted env c a _ X E). cbn [compDice set_pending].
    destruct (compDice g); cbn; auto.
  - destruct (is_exit a) eqn:X.
    { rewrite on_exit_user by exact X. cbn. auto. }
    destruct (integer_input_error a) as [o|] eqn:E.
    { rewrite (on_user_round_rejected env cr c a o _ X E).
      pose proof (integer_input_error_cases a o E) as [-> | ->]; cbn; auto. }
    rewrite (on_user_round_accepted env cr c a _ X E). cbn [userDice set_pending].
    destruct (userDice g) as [d|] eqn:Hd; [|cbn; rewrite Hd; auto].
    unfold user_rolled. destruct (js_gt _ cr); cbn; rewrite Hd; auto.
  - cbn. rewrite Hc, Hq. auto.
Qed.

Lemma lines_keep_selection (env : Env) (more : list jsstring) :
  forall g, selection_over g ->
    userDice (snd (lines env more g)) = userDice g
    /\ diceSet (snd (lines env more g)) = diceSet g
    /\ chosen (console (snd (lines env more g))) = chosen (console g).
Proof.
  induction more as [|a more IH]; intros g Hg; [now cbn|].
  destruct (line_keeps_selection env a g Hg) as (Hs & Hu & Hd & Hch).
  cbn [lines]. unfold bind.
  destruct (line env a g) as [[[]|e] g1]; cbn [snd] in *.
  - destruct (IH g1 Hs) as (-> & -> & ->). now rewrite Hu, Hd, Hch.
  - now rewrite Hu, Hd, Hch.
Qed.

(** C6: at the dice prompt, for an answer that reads as a valid index [i]
    into the pool, the program takes the die at position [i] out of the
    pool: the human holds that die, the pool is left without that position,
    one die shorter, and the console names the die as handed out.  That is
    the operation [takeByIndex] of the specification.  No die is handed out
    twice: whatever is typed afterwards, the human's die, the pool and the
    list of dice handed out stay as they are, a die taken from a pool of
    distinct dice is not in the pool that is left, and in a whole session
    at most one die is handed out and the human's die is never in the pool
    that remains. *)
Theorem takeByIndex_removes_once
    (env : Env) (g : Game) (a : jsstring) (pool : list Dice) (i : nat) (d : Dice)
    (Hopen : rl_closed g = false)
    (Hpending : pending g = Some QDice)
    (Hpool : diceSet g = Some pool)
    (Hexit : is_exit a = false)
    (Hindex : to_Z (parseInt a) = Some (Z.of_nat i))
    (Hvalid : nth_error pool i = Some d) :
  let rest := firstn i pool ++ skipn (S i) pool in
  (exists g',
     line env a g = (Normal tt, g')
     /\ userDice g' = Some d
     /\ diceSet g' = Some rest
     /\ chosen (console g') = values d :: chosen (console g)
     /\ forall more,
          userDice (snd (lines env more g')) = Some d
          /\ diceSet (snd (lines env more g')) = Some rest
          /\ chosen (console (snd (lines env more g')))
             = values d :: chosen (console g))
  /\ takeByIndex pool (parseInt a) = Some (d, rest)
  /\ (List.length rest + 1 = List.length pool)%nat
  /\ (NoDup pool ->
      ~ In d rest
      /\ NoDup rest
      /\ forall x d' rest', takeByIndex rest x = Some (d', rest') -> d' <> d)
  /\ (forall (argv2 : option jsstring) (answers : list jsstring),
        (List.length (chosen (console (snd (main env argv2 answers)))) <= 1)%nat
        /\ forall ud remaining,
             userDice (snd (main env argv2 answers)) = Some ud ->
             diceSet (snd (main env argv2 answers)) = Some remaining ->
             ~ In ud remaining).
Proof.
  cbv zeta.
  assert (Hi : index pool (parseInt a) = Some d).
  { unfold index. rewrite Hindex.
    replace (0 <=? Z.of_nat i) with true by (symmetry; apply Z.leb_le; lia).
    now rewrite Nat2Z.id. }
  assert (Hs : splice_one pool (parseInt a)
               = ([d], firstn i pool ++ skipn (S i) pool)).
  { destruct (index_splice pool _ d Hi) as (j & Hj & _ & Hs).
    rewrite Hindex in Hj. injection Hj as Hj. apply Nat2Z.inj in Hj.
    now subst j. }
  split; [|split; [|split; [|split]]].
  - exists (dice_chosen env (parseInt a) pool d (set_pending None g)).
    assert (Hstate :
      userDice (dice_chosen env (parseInt a) pool d (set_pending None g))
      = Some d
      /\ diceSet (dice_chosen env (parseInt a) pool d (set_pending None g))
         = Some (firstn i pool ++ skipn (S i) pool)
      /\ chosen (console (dice_chosen env (parseInt a) pool d
                            (set_pending None g)))
         = values d :: chosen (console g)).
    { unfold dice_chosen. rewrite Hs. cbn. auto. }
    destruct Hstate as (Hu & Hd & Hch).
    split; [|split; [exact Hu|split; [exact Hd|split; [exact Hch|]]]].
    + unfold line. rewrite Hopen, Hpending. cbn [callback].
      now apply on_dice_accepted.
    + intros more. rewrite <- Hu, <- Hd, <- Hch.
      apply lines_keep_selection. right. reflexivity.
  - destruct (takeByIndex_valid pool _ d Hi) as (j & Hj & _ & Ht).
    rewrite Hindex in Hj. injection Hj as Hj. apply Nat2Z.inj in Hj.
    now subst j.
  - exact (remove_at_length pool i d Hvalid).
  - intros N. destruct (remove_at_NoDup pool i d Hvalid N) as (Hnin & Hnd).
    repeat split; [exact Hnin|exact Hnd|].
    intros x d' rest' Ht. unfold takeByIndex in Ht.
    destruct (index (firstn i pool ++ skipn (S i) pool) x) as [d''|] eqn:Hx;
      [|discriminate].
    destruct (index_splice _ x d'' Hx) as (j & _ & Hn & Hs').
    rewrite Hs' in Ht. cbn in Ht. injection Ht as <- _.
    intros ->. apply Hnin. now apply nth_error_In with j.
  - intros argv2 answers. destruct argv2 as [s|].
    + destruct (main_invariant env s answers) as (g0 & -> & _ & C & U & _).
      now split.
    + cbn. split; [lia|intros; discriminate].
Qed.

(** The session of the sample world at the dice prompt, and the answer
    ["0"]. *)
Lemma takeByIndex_removes_once_witness :
  let g := snd (main sample_env (Some (lit "1,2,3")) [lit "0"]) in
  rl_closed g = false /\ pending g = Some QDice /\ diceSet g = Some preset
  /\ is_exit (lit "0") = false
  /\ to_Z (parseInt (lit "0")) = Some (Z.of_nat 0)
  /\ nth_error preset 0 = Some {| values := [2; 2; 4; 4; 9; 9] |}
  /\ exists g',
       line sample_env (lit "0") g = (Normal tt, g')
       /\ userDice g' = Some {| values := [2; 2; 4; 4; 9; 9] |}
       /\ diceSet g' = Some [ {| values := [1; 1; 6; 6; 8; 8] |};
                              {| values := [3; 3; 5; 5; 7; 7] |} ].
Proof.
  cbv zeta. repeat (split; [reflexivity|]).
  destruct (takeByIndex_removes_once sample_env
              (snd (main sample_env (Some (lit "1,2,3")) [lit "0"]))
              (lit "0") preset 0 {| values := [2; 2; 4; 4; 9; 9] |}
              eq_refl eq_refl eq_refl eq_refl eq_refl eq_refl)
    as ((g' & H1 & H2 & H3 & _) & _).
  exists g'. repeat split; assumption.
Defined.

(** ** Dice selection *)

(** C7, as stated, fails on its last part: after the human takes index 0
    from the preset pool, two dice remain in the pool, not one; the
    computer's die is read from position 0 and stays in the pool. *)
Lemma two_dice_remain_after_selection :
  let g := snd (main sample_env (Some (lit "1,2,3")) [lit "0"; lit "0"]) in
  userDice g = Some {| values := [2; 2; 4; 4; 9; 9] |}
  /\ compDice g = Some {| values := [1; 1; 6; 6; 8; 8] |}
  /\ option_map (@List.length Dice) (diceSet g) = Some 2%nat
  /\ option_map (@List.length Dice) (diceSet g) <> Some 1%nat.
Proof. cbv zeta. repeat split; [reflexivity..|discriminate]. Qed.

(** C7, amended: when the human selects a die by a valid index, the human
    holds the die at that index, the pool is left without it, and the
    computer is assigned the first die of the pool that is left, whatever
    the random sources are; the computer's die stays in the pool.  With the
    preset pool and the selection ["0"] the human holds [[2,2,4,4,9,9]], the
    computer holds [[1,1,6,6,8,8]], and two dice remain in the pool. *)
Theorem computer_gets_first_remaining
    (env : Env) (g : Game) (a : jsstring) (pool : list Dice) (d : Dice)
    (Hopen : rl_closed g = false)
    (Hpending : pending g = Some QDice)
    (Hpool : diceSet g = Some pool)
    (Hexit : is_exit a = false)
    (Hvalid : index pool (parseInt a) = Some d) :
  exists (i : nat) (g' : Game),
    to_Z (parseInt a) = Some (Z.of_nat i)
    /\ nth_error pool i = Some d
    /\ line env a g = (Normal tt, g')
    /\ phase g' = RollExchange
    /\ userDice g' = Some d
    /\ diceSet g' = Some (firstn i pool ++ skipn (S i) pool)
    /\ compDice g' = hd_error (firstn i pool ++ skipn (S i) pool)
    /\ (List.length (firstn i pool ++ skipn (S i) pool) + 1
        = List.length pool)%nat
    /\ (forall env', compDice (snd (line env' a g)) = compDice g')
    /\ (pool = preset -> a = lit "0" ->
        userDice g' = Some {| values := [2; 2; 4; 4; 9; 9] |}
        /\ compDice g' = Some {| values := [1; 1; 6; 6; 8; 8] |}
        /\ diceSet g' = Some [ {| values := [1; 1; 6; 6; 8; 8] |};
                               {| values := [3; 3; 5; 5; 7; 7] |} ]).
Proof.
  destruct (index_splice pool (parseInt a) d Hvalid) as (i & Hi & Hn & Hs).
  assert (Hline : forall env',
            line env' a g
            = (Normal tt, dice_chosen env' (parseInt a) pool d (set_pending None g))).
  { intros env'. unfold line. rewrite Hopen, Hpending. cbn [callback].
    now apply on_dice_accepted. }
  exists i, (dice_chosen env (parseInt a) pool d (set_pending None g)).
  split; [exact Hi|]. split; [exact Hn|]. split; [apply Hline|].
  unfold dice_chosen, phase. rewrite Hs. cbn. rewrite Hopen.
  repeat split.
  - exact (remove_at_length pool i d Hn).
  - intros env'. rewrite Hline. unfold dice_chosen. rewrite Hs. reflexivity.
  - subst pool a. revert Hi Hn. change (parseInt (lit "0")) with (of_Z 0).
    rewrite to_Z_of_Z. intros [= Hi]. destruct i; [|lia]. now intros [= <-].
  - subst pool a. revert Hi. change (parseInt (lit "0")) with (of_Z 0).
    rewrite to_Z_of_Z. intros [= Hi]. destruct i; [|lia]. reflexivity.
  - subst pool a. revert Hi. change (parseInt (lit "0")) with (of_Z 0).
    rewrite to_Z_of_Z. intros [= Hi]. destruct i; [|lia]. reflexivity.
Qed.

(** The session of the sample world at the dice prompt. *)
Lemma computer_gets_first_remaining_witness :
  let g := snd (main sample_env (Some (lit "1,2,3")) [lit "0"]) in
  rl_closed g = false /\ pending g = Some QDice /\ diceSet g = Some preset
  /\ is_exit (lit "0") = false
  /\ index preset (parseInt (lit "0")) = Some {| values := [2; 2; 4; 4; 9; 9] |}
  /\ exists g',
       line sample_env (lit "0") g = (Normal tt, g')
       /\ compDice g' = Some {| values := [1; 1; 6; 6; 8; 8] |}.
Proof.
  cbv zeta. repeat (split; [reflexivity|]).
  destruct (computer_gets_first_remaining sample_env
              (snd (main sample_env (Some (lit "1,2,3")) [lit "0"]))
              (lit "0") preset {| values := [2; 2; 4; 4; 9; 9] |}
              eq_refl eq_refl eq_refl eq_refl eq_refl)
    as (i & g' & _ & _ & H1 & _ & _ & _ & _ & _ & _ & H2).
  exists g'. split; [exact H1|]. exact (proj1 (proj2 (H2 eq_refl eq_refl))).
Defined.

(** C9: what the program does at the dice prompt on the inputs ["1abc"],
    ["0.5"] and ["1,2"], none of which is the decimal representation of an
    index: [parseInt] reads their leading digits, the input is accepted, a
    die is removed from the pool and the session moves on to the roll
    exchange. *)
Theorem dice_prompt_accepts_trailing_text
    (env : Env) (g : Game)
    (Hopen : rl_closed g = false)
    (Hpending : pending g = Some QDice)
    (Hpool : diceSet g = Some preset) :
  exists g1 g2 g3,
    line env (lit "1abc") g = (Normal tt, g1)
    /\ line env (lit "0.5") g = (Normal tt, g2)
    /\ line env (lit "1,2") g = (Normal tt, g3)
    /\ phase g1 = RollExchange /\ phase g2 = RollExchange
    /\ phase g3 = RollExchange
    /\ userDice g1 = Some {| values := [1; 1; 6; 6; 8; 8] |}
    /\ userDice g2 = Some {| values := [2; 2; 4; 4; 9; 9] |}
    /\ userDice g3 = Some {| values := [1; 1; 6; 6; 8; 8] |}
    /\ option_map (@List.length Dice) (diceSet g1) = Some 2%nat
    /\ option_map (@List.length Dice) (diceSet g2) = Some 2%nat
    /\ option_map (@List.length Dice) (diceSet g3) = Some 2%nat
    /\ integer_input_error (lit "1abc") = Some OutInvalidNumber
    /\ integer_input_error (lit "0.5") = Some OutInvalidNumber
    /\ integer_input_error (lit "1,2") = Some OutInvalidNumber.
Proof.
  assert (Hline : forall a d,
            is_exit a = false -> index preset (parseInt a) = Some d ->
            line env a g
            = (Normal tt, dice_chosen env (parseInt a) preset d (set_pending None g))).
  { intros a d X I. unfold line. rewrite Hopen, Hpending. cbn [callback].
    now apply on_dice_accepted. }
  eexists _, _, _.
  split; [apply (Hline (lit "1abc") {| values := [1; 1; 6; 6; 8; 8] |});
          reflexivity|].
  split; [apply (Hline (lit "0.5") {| values := [2; 2; 4; 4; 9; 9] |});
          reflexivity|].
  split; [apply (Hline (lit "1,2") {| values := [1; 1; 6; 6; 8; 8] |});
          reflexivity|].
  unfold phase. cbn [rl_closed pending dice_chosen restarted set_pending
                     set_console set_hmac set_crypto_pos set_key set_compDice
                     set_userDice set_diceSet userDice diceSet].
  rewrite Hopen. repeat split.
Qed.

Lemma dice_prompt_accepts_trailing_text_witness :
  let g := snd (main sample_env (Some (lit "1,2,3")) [lit "0"]) in
  rl_closed g = false /\ pending g = Some QDice /\ diceSet g = Some preset
  /\ exists g1,
       line sample_env (lit "1abc") g = (Normal tt, g1)
       /\ phase g1 = RollExchange
       /\ userDice g1 = Some {| values := [1; 1; 6; 6; 8; 8] |}.
Proof.
  cbv zeta. repeat (split; [reflexivity|]).
  destruct (dice_prompt_accepts_trailing_text sample_env
              (snd (main sample_env (Some (lit "1,2,3")) [lit "0"]))
              eq_refl eq_refl eq_refl)
    as (g1 & g2 & g3 & H1 & _ & _ & H2 & _ & _ & H3 & _).
  exists g1. repeat split; assumption.
Defined.

(** ** What [parseIntegerInput] lets through *)

Lemma Qred_integer (z : Z) : Qred (z # 1) = z # 1.
Proof.
  unfold Qred. cbn [Qnum Qden].
  pose proof (Z.ggcd_gcd z 1) as G.
  pose proof (Z.ggcd_correct_divisors z 1) as D.
  destruct (Z.ggcd z 1) as (g & aa & bb). cbn [fst snd] in *.
  rewrite Z.gcd_1_r in G. subst g. destruct D as (Ha & Hb).
  rewrite Z.mul_1_l in Ha, Hb. now subst.
Qed.

Lemma make_number_integral (neg : bool) (n : Z) :
  0 <= n ->
  (exists b, make_number neg n 1 = Infinity b)
  \/ (exists z, make_number neg n 1 = of_Z z).
Proof.
  intros Hn. unfold make_number, round_magnitude.
  destruct (n =? 0) eqn:Hz; [right; eexists; reflexivity|].
  apply Z.eqb_neq in Hz.
  set (e := Z.max (binade n 1 - 52) (-1074)).
  destruct (0 <=? e) eqn:He.
  - cbn [andb]. destruct (2 ^ 1024 <=? _); [left; eauto|].
    right. rewrite He. eexists. reflexivity.
  - cbn [andb]. rewrite He. right.
    rewrite round_half_even_one.
    assert (Hp : 0 < 2 ^ (- e)).
    { apply Z.pow_pos_nonneg; [lia|]. apply Z.leb_gt in He. lia. }
    exists ((if neg then -1 else 1) * n). unfold of_Z, inject_Z.
    rewrite <- Qred_integer. f_equal. apply Qred_complete.
    unfold Qeq. cbn [Qnum Qden]. rewrite Z2Pos.id by exact Hp. ring.
Qed.

Lemma digits_value_nonneg (radix : Z) (val : N -> Z) (ds : jsstring) :
  0 <= radix -> forallb (fun c => 0 <=? val c) ds = true ->
  0 <= digits_value radix val ds.
Proof.
  intros Hr. unfold digits_value.
  assert (H : forall acc, 0 <= acc ->
            forallb (fun c => 0 <=? val c) ds = true ->
            0 <= fold_left (fun acc c => radix * acc + val c) ds acc).
  { induction ds as [|c ds IH]; intros acc Hacc Hd; [exact Hacc|].
    cbn in Hd. apply andb_true_iff in Hd as (Hc & Hd). apply Z.leb_le in Hc.
    cbn [fold_left]. apply IH; [nia|exact Hd]. }
  apply H. lia.
Qed.

Lemma span_forall (f : N -> bool) (s : jsstring) :
  forallb f (fst (span f s)) = true.
Proof.
  induction s as [|c s IH]; [reflexivity|]. cbn.
  destruct (f c) eqn:Hc; [|reflexivity].
  destruct (span f s) as (x, y). cbn in *. now rewrite Hc.
Qed.

Lemma forallb_weaken {A} (f h : A -> bool) (l : list A) :
  (forall x, f x = true -> h x = true) ->
  forallb f l = true -> forallb h l = true.
Proof.
  intros Hfh H. apply forallb_forall. intros x Hx.
  apply Hfh. now apply (proj1 (forallb_forall f l) H).
Qed.

Lemma hex_digit_val_nonneg (c : N) :
  is_hex_digit c = true -> (0 <=? hex_digit_val c) = true.
Proof.
  unfold is_hex_digit, hex_digit_val, is_digit. intros H. apply Z.leb_le.
  destruct ((48 <=? c)%N && (c <=? 57)%N) eqn:D.
  - apply andb_true_iff in D as (D1 & _). apply N.leb_le in D1. lia.
  - cbn [orb] in H. destruct (97 <=? c)%N eqn:L.
    + apply N.leb_le in L. lia.
    + cbn [andb orb] in H. apply andb_true_iff in H as (H1 & _).
      apply N.leb_le in H1. lia.
Qed.

Lemma digit_val_nonneg (c : N) :
  is_digit c = true -> (0 <=? digit_val c) = true.
Proof.
  unfold is_digit, digit_val. intros H. apply andb_true_iff in H as (H1 & _).
  apply N.leb_le in H1. apply Z.leb_le. lia.
Qed.

(** [parseInt] returns [NaN], an infinity or an integer. *)
Lemma parseInt_integral (a : jsstring) :
  parseInt a = NaN
  \/ (exists b, parseInt a = Infinity b)
  \/ (exists z, parseInt a = of_Z z).
Proof.
  unfold parseInt. destruct (take_sign (trim_start a)) as (neg, r).
  destruct (starts_with (lit "0x") r || starts_with (lit "0X") r).
  - pose proof (span_forall is_hex_digit (skipn 2 r)) as Hs.
    destruct (span is_hex_digit (skipn 2 r)) as (ds, rest). cbn [fst] in Hs.
    destruct ds as [|c ds]; [now left|]. right.
    apply make_number_integral, digits_value_nonneg; [lia|].
    exact (forallb_weaken _ _ _ hex_digit_val_nonneg Hs).
  - pose proof (span_forall is_digit r) as Hs.
    destruct (span is_digit r) as (ds, rest). cbn [fst] in Hs.
    destruct ds as [|c ds]; [now left|]. right.
    apply make_number_integral, digits_value_nonneg; [lia|].
    exact (forallb_weaken _ _ _ digit_val_nonneg Hs).
Qed.

(** A contribution that [parseIntegerInput] accepts is an integer from 0 to
    5 or, for inputs such as [".0"] that [Number] reads and [parseInt] does
    not, [NaN]; the fair result is then [combine] of the committed value and
    the contribution, or [NaN]. *)
Lemma accepted_contribution (a : jsstring) :
  integer_input_error a = None ->
  parseInt a = NaN
  \/ exists z, 0 <= z <= 5 /\ parseInt a = of_Z z
               /\ forall c, fairResult c (parseInt a) = of_Z (combine c z 6).
Proof.
  unfold integer_input_error.
  destruct (_ || _ || _ || _); [discriminate|].
  destruct (lt_Z (parseInt a) 0 || gt_Z (parseInt a) 5) eqn:R; [discriminate|].
  intros _. apply orb_false_iff in R as (R1 & R2).
  destruct (parseInt_integral a) as [H|[(b & H)|(z & H)]]; [now left| |].
  - rewrite H in R1, R2. cbn in R1, R2. destruct b; discriminate.
  - right. exists z. rewrite H in *. unfold lt_Z, gt_Z, of_Z, Qcompare in R1, R2.
    cbn [Qnum Qden inject_Z] in R1, R2. rewrite !Z.mul_1_r in R1, R2.
    split; [|split; [reflexivity|intros c; apply fairResult_combine]].
    destruct (Z.compare_spec z 0); try discriminate;
      destruct (Z.compare_spec z 5); try discriminate; lia.
Qed.

Example accepted_contribution_NaN :
  integer_input_error (lit ".0") = None /\ parseInt (lit ".0") = NaN.
Proof. split; reflexivity. Qed.

(** ** The fair-result expression *)



(** * Further properties of the program *)

(** ** Strings *)

Lemma str_eqb_eq (a b : jsstring) : str_eqb a b = true <-> a = b.
Proof.
  revert b. induction a as [|x a IH]; intros [|y b];
    try (split; [discriminate|discriminate]); [split; reflexivity|].
  change (str_eqb (x :: a) (y :: b)) with (N.eqb x y && str_eqb a b).
  rewrite andb_true_iff, N.eqb_eq, IH. split.
  - now intros [-> ->].
  - now intros [= -> ->].
Qed.

Lemma is_exit_spec (a : jsstring) :
  is_exit a = true <-> a = lit "X" \/ a = lit "x".
Proof. unfold is_exit. now rewrite orb_true_iff, !str_eqb_eq. Qed.

Lemma str_eqb_neq (a b : jsstring) : a <> b -> str_eqb a b = false.
Proof.
  intros H. destruct (str_eqb a b) eqn:E; [|reflexivity].
  now apply str_eqb_eq in E.
Qed.

(** ** Random values *)

Lemma readUInt32BE_bound (bs : list byte) :
  0 <= readUInt32BE bs < 256 ^ Z.of_nat (List.length bs).
Proof.
  unfold readUInt32BE.
  assert (H : forall acc k, 0 <= acc < 256 ^ k -> 0 <= k ->
            0 <= fold_left (fun acc b => 256 * acc + Z.of_N (Byte.to_N b)) bs acc
            < 256 ^ (k + Z.of_nat (List.length bs))).
  { induction bs as [|b bs IH]; intros acc k Hacc Hk.
    - cbn [fold_left List.length]. now rewrite Z.add_0_r.
    - cbn [fold_left]. pose proof (Byte.to_N_bounded b) as Hb.
      replace (k + Z.of_nat (List.length (b :: bs)))
        with ((k + 1) + Z.of_nat (List.length bs))
        by (cbn [List.length]; lia).
      apply IH; [|lia]. rewrite Z.pow_add_r, Z.pow_1_r by lia. lia. }
  apply (H 0 0); [cbn; lia|lia].
Qed.

(** X1: [generateRandomNumber(range)] with a positive range consumes four
    random bytes, changes nothing else, and returns the 32-bit big-endian
    word they form, reduced modulo the range: a value in [[0, range)]. *)
Theorem generateRandomNumber_in_range
    (env : Env) (range : Z) (g : Game) (Hrange : 0 < range) :
  exists word v,
    generateRandomNumber env range g
    = (Normal v, set_crypto_pos (crypto_pos g + 4) g)
    /\ word = readUInt32BE (List.map (random_byte env) (seq (crypto_pos g) 4))
    /\ 0 <= word < 2 ^ 32
    /\ v = word mod range
    /\ 0 <= v < range.
Proof.
  eexists _, _. split; [reflexivity|]. split; [reflexivity|].
  set (bs := List.map _ _).
  pose proof (readUInt32BE_bound bs) as Hb.
  replace (List.length bs) with 4%nat in Hb
    by (unfold bs; now rewrite length_map, length_seq).
  change (256 ^ Z.of_nat 4) with (2 ^ 32) in Hb.
  split; [exact Hb|]. unfold rem.
  rewrite Z.rem_mod_nonneg by lia.
  split; [reflexivity|]. apply Z.mod_pos_bound. exact Hrange.
Qed.

Lemma generateRandomNumber_in_range_witness :
  0 < 6
  /\ exists word v : Z,
       generateRandomNumber sample_env 6 new_DiceGame
       = (Normal v, set_crypto_pos (crypto_pos new_DiceGame + 4) new_DiceGame)
       /\ 0 <= v < 6.
Proof.
  split; [lia|].
  destruct (generateRandomNumber_in_range sample_env 6 new_DiceGame ltac:(lia))
    as (word & v & H1 & _ & _ & _ & H2).
  exists word, v. split; assumption.
Defined.

Lemma hex_pair (b : byte) :
  let n := Byte.to_N b in
  let lower c := is_digit c || ((97 <=? c) && (c <=? 102))%N in
  lower (hex_digit (n / 16)) = true
  /\ lower (hex_digit (n mod 16)) = true
  /\ 16 * hex_digit_val (hex_digit (n / 16)) + hex_digit_val (hex_digit (n mod 16))
     = Z.of_N n.
Proof. destruct b; vm_compute; repeat split. Qed.

Lemma hex_of_bytes_cons (b : byte) (bs : list byte) :
  hex_of_bytes (b :: bs)
  = hex_digit (Byte.to_N b / 16) :: hex_digit (Byte.to_N b mod 16)
    :: hex_of_bytes bs.
Proof. reflexivity. Qed.

Lemma to_N_inj (b1 b2 : byte) : Byte.to_N b1 = Byte.to_N b2 -> b1 = b2.
Proof.
  intros H. pose proof (Byte.of_to_N b1) as H1. rewrite H, Byte.of_to_N in H1.
  now injection H1.
Qed.

Lemma hex_of_bytes_inj (bs1 bs2 : list byte) :
  hex_of_bytes bs1 = hex_of_bytes bs2 -> bs1 = bs2.
Proof.
  revert bs2. induction bs1 as [|b1 bs1 IH]; intros [|b2 bs2];
    rewrite ?hex_of_bytes_cons; try discriminate; [reflexivity|].
  intros [= H1 H2 H3].
  destruct (hex_pair b1) as (_ & _ & V1). destruct (hex_pair b2) as (_ & _ & V2).
  rewrite H1, H2, V2 in V1. f_equal; [|now apply IH].
  symmetry. apply to_N_inj. lia.
Qed.

(** X2: [generateRandomKey] consumes 32 random bytes, changes nothing else,
    and returns their hexadecimal encoding: 64 characters, all lowercase
    hexadecimal digits, which read as a base-16 numeral give the big-endian
    number of the bytes.  The encoding loses nothing: different bytes give
    different keys. *)
Theorem generateRandomKey_is_hex (env : Env) (g : Game) :
  let bytes := List.map (random_byte env) (seq (crypto_pos g) 32) in
  generateRandomKey env g
  = (Normal (hex_of_bytes bytes), set_crypto_pos (crypto_pos g + 32) g)
  /\ List.length (hex_of_bytes bytes) = 64%nat
  /\ (forall bs : list byte,
        List.length (hex_of_bytes bs) = (2 * List.length bs)%nat
        /\ forallb (fun c => is_digit c || ((97 <=? c) && (c <=? 102))%N)
                   (hex_of_bytes bs) = true
        /\ digits_value 16 hex_digit_val (hex_of_bytes bs)
           = fold_left (fun acc b => 256 * acc + Z.of_N (Byte.to_N b)) bs 0)
  /\ (forall bs1 bs2 : list byte,
        hex_of_bytes bs1 = hex_of_bytes bs2 -> bs1 = bs2).
Proof.
  cbv zeta.
  assert (Hall : forall bs : list byte,
        List.length (hex_of_bytes bs) = (2 * List.length bs)%nat
        /\ forallb (fun c => is_digit c || ((97 <=? c) && (c <=? 102))%N)
                   (hex_of_bytes bs) = true
        /\ digits_value 16 hex_digit_val (hex_of_bytes bs)
           = fold_left (fun acc b => 256 * acc + Z.of_N (Byte.to_N b)) bs 0).
  { intros bs. split; [|split].
    - induction bs as [|b bs IH]; [reflexivity|].
      rewrite hex_of_bytes_cons. cbn [List.length]. rewrite IH. lia.
    - induction bs as [|b bs IH]; [reflexivity|].
      rewrite hex_of_bytes_cons. destruct (hex_pair b) as (L1 & L2 & _).
      cbn [forallb]. cbv zeta in L1, L2. now rewrite L1, L2, IH.
    - unfold digits_value.
      assert (H : forall acc,
                fold_left (fun acc c => 16 * acc + hex_digit_val c)
                          (hex_of_bytes bs) acc
                = fold_left (fun acc b => 256 * acc + Z.of_N (Byte.to_N b)) bs acc).
      { induction bs as [|b bs IH]; intros acc; [reflexivity|].
        rewrite hex_of_bytes_cons. cbn [fold_left]. rewrite IH. f_equal.
        destruct (hex_pair b) as (_ & _ & V). cbv zeta in V. lia. }
      apply H. }
  split; [reflexivity|]. split; [|split; [exact Hall|exact hex_of_bytes_inj]].
  rewrite (proj1 (Hall _)), length_map, length_seq. reflexivity.
Qed.

(** ** Rolling a die *)

Lemma binade_lower (n d : Z) :
  0 < n -> 0 < d ->
  (0 <= binade n d -> d * 2 ^ binade n d <= n)
  /\ (binade n d < 0 -> d <= n * 2 ^ (- binade n d)).
Proof.
  intros Hn Hd. unfold binade.
  pose proof (Z.log2_spec n Hn) as [Ln1 Ln2].
  pose proof (Z.log2_spec d Hd) as [Ld1 Ld2].
  pose proof (Z.log2_nonneg n) as Pn. pose proof (Z.log2_nonneg d) as Pd.
  set (ln := Z.log2 n) in *. set (ld := Z.log2 d) in *.
  rewrite <- Z.add_1_r in Ln2, Ld2.
  destruct (0 <=? ln - ld) eqn:E0.
  - apply Z.leb_le in E0.
    destruct (d * 2 ^ (ln - ld) <=? n) eqn:T.
    + apply Z.leb_le in T. split; [intros _; exact T|lia].
    + apply Z.leb_gt in T. split.
      * intros Hb.
        assert (Hpow : 2 ^ (ld + 1) * 2 ^ (ln - ld - 1) = 2 ^ ln).
        { rewrite <- Z.pow_add_r by lia. f_equal. lia. }
        assert (Hp : 0 < 2 ^ (ln - ld - 1)) by (apply Z.pow_pos_nonneg; lia).
        nia.
      * intros Hb. assert (ln = ld) by lia.
        replace (- (ln - ld - 1)) with 1 by lia.
        rewrite Z.pow_add_r, Z.pow_1_r in Ld2 by lia.
        replace ld with ln in Ld2 by lia. lia.
  - apply Z.leb_gt in E0.
    destruct (d <=? n * 2 ^ (- (ln - ld))) eqn:T.
    + apply Z.leb_le in T. split; [lia|intros _; exact T].
    + split; [lia|]. intros _.
      assert (Hpow : 2 ^ ln * 2 ^ (- (ln - ld - 1)) = 2 ^ (ld + 1)).
      { rewrite <- Z.pow_add_r by lia. f_equal. lia. }
      assert (Hp : 0 < 2 ^ (- (ln - ld - 1))) by (apply Z.pow_pos_nonneg; lia).
      nia.
Qed.

Lemma round_half_even_cases (num den : Z) :
  round_half_even num den = num / den
  \/ (round_half_even num den = num / den + 1 /\ den <= 2 * (num mod den)).
Proof.
  unfold round_half_even.
  destruct (Z.compare_spec (2 * (num mod den)) den) as [H|H|H].
  - destruct (Z.even _); [now left|right; split; [reflexivity|lia]].
  - now left.
  - right. split; [reflexivity|lia].
Qed.

(** The rounded product of a double below one and a length of at most
    [2^52] stays below the length. *)
Lemma floor_rounded_below (u len : Z) :
  0 <= u < 2 ^ 53 -> 1 <= len <= 2 ^ 52 ->
  exists i, floor_rounded (u * len) (2 ^ 53) = Some i /\ 0 <= i < len.
Proof.
  intros Hu Hlen. unfold floor_rounded, round_magnitude.
  destruct (u * len =? 0) eqn:Hz.
  { exists 0. split; [reflexivity|lia]. }
  apply Z.eqb_neq in Hz. assert (Hn : 0 < u * len) by nia.
  set (D := 2 ^ 53) in *. assert (HD : 0 < D) by reflexivity.
  destruct (binade_lower (u * len) D Hn HD) as (B1 & B2).
  set (b := binade (u * len) D) in *.
  assert (H52 : 2 ^ 52 * 2 = D) by reflexivity.
  assert (Hb : b < 52).
  { destruct (Z.lt_ge_cases b 52) as [|Hge]; [easy|exfalso].
    specialize (B1 ltac:(lia)).
    pose proof (Z.pow_le_mono_r 2 52 b ltac:(lia) Hge). nia. }
  set (e := Z.max (b - 52) (-1074)).
  assert (He : e < 0) by (unfold e; lia).
  replace (0 <=? e) with false by (symmetry; apply Z.leb_gt; exact He).
  cbn [andb].
  set (k := - e). assert (Hk : 0 < k) by (unfold k; lia).
  assert (Hpk : 0 < 2 ^ k) by (apply Z.pow_pos_nonneg; lia).
  set (X := len * 2 ^ k).
  assert (HX : 2 ^ 52 < X).
  { unfold X. destruct (Z.le_ge_cases (-1074) (b - 52)) as [Hc|Hc].
    - assert (k = 52 - b) by (unfold k, e; lia).
      destruct (Z.neg_nonneg_cases b) as [Hneg|Hpos].
      + specialize (B2 Hneg).
        assert (Hpb : 0 < 2 ^ (- b)) by (apply Z.pow_pos_nonneg; lia).
        replace k with (52 + - b) by lia. rewrite Z.pow_add_r by lia.
        assert (1 < len * 2 ^ (- b)) by nia. nia.
      + specialize (B1 Hpos).
        assert (Hpb : 0 < 2 ^ b) by (apply Z.pow_pos_nonneg; lia).
        assert (Hsplit : 2 ^ b * 2 ^ k = 2 ^ 52).
        { rewrite <- Z.pow_add_r by lia. f_equal. lia. }
        assert (2 ^ b < len) by nia. nia.
    - assert (k = 1074) by (unfold k, e; lia).
      assert (2 ^ 52 < 2 ^ k) by (subst k; rewrite H; reflexivity). nia. }
  assert (Hm : 0 <= round_half_even (u * len * 2 ^ k) D < X).
  { replace (u * len * 2 ^ k) with (u * X) by (unfold X; ring).
    pose proof (Z.div_mod (u * X) D ltac:(lia)) as Hdm.
    pose proof (Z.mod_pos_bound (u * X) D HD) as Hr.
    assert (Hq0 : 0 <= u * X / D) by (apply Z.div_pos; nia).
    assert (HqX : u * X / D < X) by (apply Z.div_lt_upper_bound; nia).
    destruct (round_half_even_cases (u * X) D) as [-> | [-> Hhalf]]; [lia|].
    split; [lia|].
    destruct (Z.eq_dec (u * X / D) (X - 1)) as [Heq|]; [|lia].
    exfalso. rewrite Heq in Hdm. nia. }
  eexists. split; [reflexivity|]. cbv beta iota.
  replace (0 <=? e) with false by (symmetry; apply Z.leb_gt; exact He).
  fold k. split; [apply Z.div_pos; lia|].
  apply Z.div_lt_upper_bound; [exact Hpk|]. unfold X in Hm. lia.
Qed.

(** X3: the [Dice] constructor rejects an empty list of faces with an
    [Error] and accepts every other list as it is; a die it built, with at
    most [2^52] faces, rolls to one of its faces whatever [Math.random]
    returns, never to [undefined], and a roll consumes one random number
    and changes nothing else. *)
Theorem roll_returns_a_face
    (env : Env) (vs : list Z) (g : Game)
    (Hfaces : vs <> [])
    (Hsize : Z.of_nat (List.length vs) <= 2 ^ 52) :
  (exists message, Dice_new [] g = (Throw (Error message), g))
  /\ Dice_new vs g = (Normal {| values := vs |}, g)
  /\ exists v,
       roll env {| values := vs |} g
       = (Normal (Some v), set_math_pos (S (math_pos g)) g)
       /\ In v vs.
Proof.
  split; [eexists; reflexivity|]. split.
  - destruct vs; [easy|reflexivity].
  - rewrite roll_run. unfold face. cbn [values].
    assert (Hlen : 1 <= Z.of_nat (List.length vs)).
    { destruct vs; [easy|cbn [List.length]; lia]. }
    pose proof (Z.mod_pos_bound (math_random env (math_pos g)) (2 ^ 53)
                  ltac:(reflexivity)) as Hu.
    destruct (floor_rounded_below _ _ Hu (conj Hlen Hsize)) as (i & -> & Hi).
    destruct (nth_error vs (Z.to_nat i)) as [v|] eqn:Hn.
    + exists v. split; [reflexivity|]. now apply nth_error_In with (Z.to_nat i).
    + apply nth_error_None in Hn. lia.
Qed.

Lemma roll_returns_a_face_witness :
  [2; 2; 4; 4; 9; 9] <> []
  /\ Z.of_nat (List.length [2; 2; 4; 4; 9; 9]) <= 2 ^ 52
  /\ exists v,
       roll sample_env {| values := [2; 2; 4; 4; 9; 9] |} new_DiceGame
       = (Normal (Some v), set_math_pos (S (math_pos new_DiceGame)) new_DiceGame)
       /\ In v [2; 2; 4; 4; 9; 9].
Proof.
  split; [discriminate|]. split; [vm_compute; discriminate|].
  exact (proj2 (proj2 (roll_returns_a_face sample_env [2; 2; 4; 4; 9; 9]
                         new_DiceGame ltac:(discriminate)
                         ltac:(vm_compute; discriminate)))).
Defined.

(** ** Decimal numerals as input *)

Lemma make_number_exact (neg : bool) (n : Z) :
  0 <= n < 2 ^ 53 ->
  make_number neg n 1 = of_Z ((if neg then -1 else 1) * n).
Proof.
  intros Hn. unfold make_number, round_magnitude.
  destruct (n =? 0) eqn:Hz.
  { apply Z.eqb_eq in Hz. subst n. cbn [Z.leb Z.compare]. unfold of_Z, inject_Z.
    do 2 f_equal. change (2 ^ 0) with 1. ring. }
  apply Z.eqb_neq in Hz. assert (Hp : 0 < n) by lia.
  rewrite (binade_integer n Hp).
  pose proof (Z.log2_nonneg n) as Hl.
  assert (Hl52 : Z.log2 n < 53) by (apply Z.log2_lt_pow2; lia).
  rewrite Z.max_l by lia.
  destruct (0 <=? Z.log2 n - 52) eqn:He.
  - apply Z.leb_le in He. assert (E : Z.log2 n - 52 = 0) by lia.
    rewrite E. change (1 * 2 ^ 0) with 1. rewrite round_half_even_one.
    change (2 ^ 0) with 1. rewrite Z.mul_1_r.
    replace (2 ^ 1024 <=? n) with false.
    2:{ symmetry. apply Z.leb_gt.
        assert (2 ^ 53 < 2 ^ 1024) by reflexivity. lia. }
    cbn [andb Z.leb Z.compare]. unfold of_Z, inject_Z. do 2 f_equal. ring.
  - cbn [andb]. rewrite He, round_half_even_one.
    assert (Hk : 0 < 2 ^ (- (Z.log2 n - 52))).
    { apply Z.pow_pos_nonneg; [lia|]. apply Z.leb_gt in He. lia. }
    unfold of_Z, inject_Z. rewrite <- Qred_integer. f_equal.
    apply Qred_complete. unfold Qeq. cbn [Qnum Qden].
    rewrite Z2Pos.id by exact Hk. ring.
Qed.

Lemma toString_negative (z : Z) :
  z < 0 -> toString z = c_minus :: toString (- z).
Proof.
  intros H. unfold toString.
  replace (z <? 0) with true by (symmetry; apply Z.ltb_lt; lia).
  replace (- z <? 0) with false by (symmetry; apply Z.ltb_ge; lia).
  reflexivity.
Qed.

(** [parseInt] reads a decimal numeral back exactly, for every integer
    that a Number holds exactly. *)
Lemma parseInt_toString (z : Z) :
  - 2 ^ 53 < z < 2 ^ 53 -> parseInt (toString z) = of_Z z.
Proof.
  intros Hz. destruct (Z.neg_nonneg_cases z) as [Hneg|Hpos].
  - rewrite (toString_negative z Hneg).
    destruct (toString_canonical (- z) ltac:(lia)) as (Hne & Hd & Hv & _).
    pose proof (parseInt_signed_digits true _ Hne Hd) as Hp.
    cbn [app] in Hp. rewrite Hp, Hv, make_number_exact by lia.
    f_equal. ring.
  - destruct (toString_canonical z Hpos) as (Hne & Hd & Hv & _).
    pose proof (parseInt_signed_digits false _ Hne Hd) as Hp.
    cbn [app] in Hp. rewrite Hp, Hv, make_number_exact by lia.
    f_equal. ring.
Qed.

Lemma toString_chars (z : Z) :
  toString z <> []
  /\ forallb (fun c => is_digit c || N.eqb c c_minus) (toString z) = true.
Proof.
  destruct (Z.neg_nonneg_cases z) as [Hneg|Hpos].
  - rewrite (toString_negative z Hneg). split; [discriminate|].
    destruct (toString_canonical (- z) ltac:(lia)) as (_ & Hd & _).
    cbn [forallb]. rewrite N.eqb_refl, orb_true_r. cbn [andb].
    apply (forallb_weaken is_digit); [|exact Hd].
    intros c Hc. now rewrite Hc.
  - destruct (toString_canonical z Hpos) as (Hne & Hd & _).
    split; [exact Hne|].
    apply (forallb_weaken is_digit); [|exact Hd].
    intros c Hc. now rewrite Hc.
Qed.

Lemma numeral_char (c : N) :
  is_digit c || N.eqb c c_minus = true ->
  is_white c = false /\ N.eqb c c_comma = false /\ N.eqb c 88 = false
  /\ N.eqb c 120 = false.
Proof.
  intros H. apply orb_true_iff in H as [H|H].
  - apply digit_cases in H. repeat destruct H as [H|H]; subst; repeat split.
  - apply N.eqb_eq in H. subst. repeat split.
Qed.

Lemma trim_start_plain (s : jsstring) :
  forallb (fun c => negb (is_white c)) s = true -> trim_start s = s.
Proof.
  destruct s as [|c s]; [reflexivity|]. cbn. intros H.
  apply andb_true_iff in H as (H & _). apply negb_true_iff in H. now rewrite H.
Qed.

Lemma trim_plain (s : jsstring) :
  forallb (fun c => negb (is_white c)) s = true -> trim s = s.
Proof.
  intros H. unfold trim, trim_end. rewrite (trim_start_plain s H).
  rewrite trim_start_plain; [apply rev_involutive|].
  apply forallb_forall. intros c Hc. apply in_rev in Hc.
  now apply (proj1 (forallb_forall _ _) H).
Qed.

Lemma toString_plain (z : Z) :
  trim (toString z) = toString z
  /\ includes c_comma (toString z) = false
  /\ is_exit (toString z) = false.
Proof.
  destruct (toString_chars z) as (Hne & Hc).
  split; [|split].
  - apply trim_plain.
    apply (forallb_weaken (fun c => is_digit c || N.eqb c c_minus)); [|exact Hc].
    intros c H. now rewrite (proj1 (numeral_char c H)).
  - unfold includes. apply not_true_is_false. intros H.
    apply existsb_exists in H as (c & Hin & Heq).
    pose proof (proj1 (forallb_forall _ _) Hc c Hin) as Hn.
    destruct (numeral_char c Hn) as (_ & Hcomma & _).
    rewrite N.eqb_sym in Heq. congruence.
  - apply not_true_is_false. intros H. apply is_exit_spec in H.
    destruct (toString z) as [|c s]; [easy|].
    cbn [forallb] in Hc. apply andb_true_iff in Hc as (Hc & _).
    destruct (numeral_char c Hc) as (_ & _ & H88 & H120).
    change (lit "X") with [88%N] in H. change (lit "x") with [120%N] in H.
    destruct H as [[= -> _]|[= -> _]]; discriminate.
Qed.

(** X4: [parseIntegerInput] on the decimal numeral of an integer [z]: for
    [z] from 0 to 5 it returns [z] and writes nothing; for every other
    integer, however large, it returns [null] after writing one of its two
    error messages. *)
Theorem parseIntegerInput_on_numerals (z : Z) (g : Game) :
  (0 <= z <= 5 ->
   parseIntegerInput (toString z) g = (Normal (Some (of_Z z)), g))
  /\ (z < 0 \/ 5 < z ->
      exists o, (o = OutInvalidNumber \/ o = OutOutOfRange)
                /\ parseIntegerInput (toString z) g
                   = (Normal None, set_console (o :: console g) g)).
Proof.
  split.
  - intros Hz.
    assert (H : z = 0 \/ z = 1 \/ z = 2 \/ z = 3 \/ z = 4 \/ z = 5) by lia.
    repeat destruct H as [H|H]; subst z; reflexivity.
  - intros Hz. rewrite parseIntegerInput_run.
    pose proof (out_of_range_rejected z Hz) as E.
    destruct (integer_input_error (toString z)) as [o|] eqn:Ho; [|easy].
    exists o. split; [exact (integer_input_error_cases _ o Ho)|reflexivity].
Qed.

Lemma parseIntegerInput_on_numerals_witness :
  0 <= 3 <= 5
  /\ parseIntegerInput (toString 3) new_DiceGame
     = (Normal (Some (of_Z 3)), new_DiceGame)
  /\ (-2 < 0 \/ 5 < -2)
  /\ exists o,
       parseIntegerInput (toString (-2)) new_DiceGame
       = (Normal None, set_console (o :: console new_DiceGame) new_DiceGame).
Proof.
  split; [lia|].
  split; [apply (proj1 (parseIntegerInput_on_numerals 3 new_DiceGame)); lia|].
  split; [left; lia|].
  assert (Hz : -2 < 0 \/ 5 < -2) by (left; lia).
  destruct (proj2 (parseIntegerInput_on_numerals (-2) new_DiceGame) Hz)
    as (o & _ & H).
  exists o. exact H.
Defined.

(** X5: at the dice prompt, the decimal numeral of an integer [z] that a
    Number holds exactly is accepted exactly when [z] is an index into the
    pool: then the human gets the die at position [z]; otherwise the choice
    is refused, the menu is shown again and pool, dice and random sources
    are as before. *)
Theorem dice_prompt_on_numerals
    (env : Env) (g : Game) (pool : list Dice) (z : Z)
    (Hopen : rl_closed g = false)
    (Hpending : pending g = Some QDice)
    (Hpool : diceSet g = Some pool)
    (Hexact : - 2 ^ 53 < z < 2 ^ 53) :
  (0 <= z < Z.of_nat (List.length pool) ->
   exists d g',
     nth_error pool (Z.to_nat z) = Some d
     /\ line env (toString z) g = (Normal tt, g')
     /\ userDice g' = Some d
     /\ diceSet g'
        = Some (firstn (Z.to_nat z) pool ++ skipn (S (Z.to_nat z)) pool)
     /\ phase g' = RollExchange)
  /\ (z < 0 \/ Z.of_nat (List.length pool) <= z ->
      exists g',
        line env (toString z) g = (Normal tt, g')
        /\ phase g' = DiceSelection
        /\ hd_error (console g') = Some (OutChooseMenu (List.map values pool))
        /\ In OutInvalidDiceChoice (console g')
        /\ (diceSet g', userDice g', compDice g', crypto_pos g', math_pos g',
            key g', hmac g')
           = (diceSet g, userDice g, compDice g, crypto_pos g, math_pos g,
              key g, hmac g)).
Proof.
  destruct (toString_plain z) as (_ & _ & X).
  pose proof (parseInt_toString z Hexact) as P.
  split; intros Hz.
  - destruct (nth_error pool (Z.to_nat z)) as [d|] eqn:Hn.
    2:{ apply nth_error_None in Hn. lia. }
    assert (I : index pool (parseInt (toString z)) = Some d).
    { rewrite P. rewrite <- (Z2Nat.id z) by lia. now rewrite index_of_nat. }
    exists d. eexists. split; [reflexivity|]. split.
    { unfold line. rewrite Hopen, Hpending. cbn [callback].
      exact (on_dice_accepted env _ pool d (set_pending None g) X Hpool I). }
    destruct (index_splice pool _ d I) as (i & Hi & _ & Hs).
    rewrite P, to_Z_of_Z in Hi. injection Hi as Hi. subst z.
    rewrite Nat2Z.id. unfold dice_chosen, phase. rewrite Hs.
    cbn. rewrite Hopen. repeat split.
  - assert (I : index pool (parseInt (toString z)) = None).
    { rewrite P. unfold index. rewrite to_Z_of_Z.
      destruct (0 <=? z) eqn:L; [|reflexivity].
      apply Z.leb_le in L. apply nth_error_None. lia. }
    eexists. split.
    { unfold line. rewrite Hopen, Hpending. cbn [callback].
      exact (on_dice_rejected env _ pool (set_pending None g) X Hpool I). }
    unfold phase. cbn. rewrite Hopen. repeat split. auto.
Qed.

Lemma dice_prompt_on_numerals_witness :
  let g := snd (main sample_env (Some (lit "1,2,3")) [lit "0"]) in
  rl_closed g = false /\ pending g = Some QDice /\ diceSet g = Some preset
  /\ - 2 ^ 53 < 7 < 2 ^ 53
  /\ exists g',
       line sample_env (toString 7) g = (Normal tt, g')
       /\ phase g' = DiceSelection.
Proof.
  cbv zeta. repeat (split; [reflexivity|]).
  split; [split; reflexivity|].
  pose proof (dice_prompt_on_numerals sample_env
                (snd (main sample_env (Some (lit "1,2,3")) [lit "0"]))
                preset 7 eq_refl eq_refl eq_refl (conj eq_refl eq_refl))
    as [_ H].
  assert (Hz : 7 < 0 \/ Z.of_nat (List.length preset) <= 7)
    by (right; vm_compute; discriminate).
  destruct (H Hz) as (g' & H1 & H2 & _).
  exists g'. split; assumption.
Defined.

(** ** Start-up input *)

Lemma split_cons (sep c : N) (r : jsstring) :
  split sep (c :: r)
  = if N.eqb c sep then [] :: split sep r
    else match split sep r with
         | p :: ps => (c :: p) :: ps
         | [] => [[c]]
         end.
Proof. reflexivity. Qed.

Lemma split_no_sep (sep : N) (p : jsstring) :
  includes sep p = false -> split sep p = [p].
Proof.
  unfold includes. induction p as [|c p IH]; [reflexivity|].
  cbn [existsb]. intros H. apply orb_false_iff in H as (Hc & Hp).
  rewrite split_cons, N.eqb_sym, Hc, (IH Hp). reflexivity.
Qed.

Lemma split_app_sep (sep : N) (p rest : jsstring) :
  includes sep p = false ->
  split sep (p ++ sep :: rest) = p :: split sep rest.
Proof.
  unfold includes. induction p as [|c p IH].
  - intros _. cbn [app]. now rewrite split_cons, N.eqb_refl.
  - cbn [existsb app]. intros H. apply orb_false_iff in H as (Hc & Hp).
    rewrite split_cons, N.eqb_sym, Hc, (IH Hp). reflexivity.
Qed.

(** [split] undoes [join] when no piece contains the separator. *)
Lemma split_join (sep : N) (pieces : list jsstring) :
  pieces <> [] ->
  Forall (fun p => includes sep p = false) pieces ->
  split sep (join sep pieces) = pieces.
Proof.
  intros Hne H. induction H as [|p rest Hp Hrest IH]; [easy|].
  destruct rest as [|q rest].
  - cbn [join]. now apply split_no_sep.
  - change (join sep (p :: q :: rest)) with (p ++ sep :: join sep (q :: rest)).
    rewrite (split_app_sep sep p _ Hp), IH by discriminate. reflexivity.
Qed.

(** X6: a startup input that lists three or more integers as decimal
    numerals separated by commas passes [validateDiceInput], for integers
    that a Number holds exactly; the session then starts: the preset pool is
    built, the first commitment is disclosed and the guess is asked for. *)
Theorem numerals_pass_validation
    (env : Env) (zs : list Z)
    (Hcount : (3 <= List.length zs)%nat)
    (Hexact : Forall (fun z => - 2 ^ 53 < z < 2 ^ 53) zs) :
  let input := join c_comma (List.map toString zs) in
  validateDiceInput (Some input) new_DiceGame = (Normal true, new_DiceGame)
  /\ main env (Some input) [] = (Normal tt, started env new_DiceGame)
  /\ phase (started env new_DiceGame) = FirstMove
  /\ diceSet (started env new_DiceGame) = Some preset.
Proof.
  cbv zeta.
  assert (Hv : valid_dice_input (join c_comma (List.map toString zs)) = true).
  { unfold valid_dice_input. rewrite split_join.
    - rewrite !length_map, map_map.
      replace (3 <=? List.length zs)%nat with true
        by (symmetry; apply Nat.leb_le; exact Hcount).
      cbn [andb]. apply forallb_forall. intros x Hx.
      apply in_map_iff in Hx as (z & <- & Hz).
      rewrite (proj1 (toString_plain z)).
      rewrite parseInt_toString by exact (proj1 (Forall_forall _ _) Hexact z Hz).
      unfold of_Z, inject_Z, Number_isNaN, Number_isInteger. cbn [Qnum Qden negb andb].
      rewrite Z.mod_1_r. reflexivity.
    - destruct zs; [cbn in Hcount; lia|discriminate].
    - apply Forall_forall. intros p Hp. apply in_map_iff in Hp as (z & <- & _).
      exact (proj1 (proj2 (toString_plain z))). }
  split; [now rewrite validateDiceInput_string, Hv|].
  split; [|split; reflexivity].
  unfold main, bind. rewrite startGame_string, Hv. reflexivity.
Qed.

Lemma numerals_pass_validation_witness :
  (3 <= @List.length Z [2; -7; 40]%Z)%nat
  /\ Forall (fun z => - 2 ^ 53 < z < 2 ^ 53) [2; -7; 40]
  /\ join c_comma (List.map toString [2; -7; 40]) = lit "2,-7,40"
  /\ validateDiceInput (Some (lit "2,-7,40")) new_DiceGame
     = (Normal true, new_DiceGame).
Proof.
  split; [vm_compute; lia|].
  split; [repeat constructor|].
  split; [reflexivity|].
  exact (proj1 (numerals_pass_validation sample_env [2; -7; 40]
                  ltac:(vm_compute; lia) ltac:(repeat constructor))).
Defined.

(** X7: the values of a startup input that passes validation are not used:
    two valid inputs lead to the same session, line for line, and the pool
    is the preset one. *)
Theorem startup_values_unused
    (env : Env) (s1 s2 : jsstring) (answers : list jsstring)
    (Hvalid1 : validateDiceInput (Some s1) new_DiceGame = (Normal true, new_DiceGame))
    (Hvalid2 : validateDiceInput (Some s2) new_DiceGame = (Normal true, new_DiceGame)) :
  main env (Some s1) answers = main env (Some s2) answers
  /\ startGame env (Some s1) new_DiceGame = (Normal tt, started env new_DiceGame)
  /\ diceSet (started env new_DiceGame) = Some preset.
Proof.
  rewrite validateDiceInput_string in Hvalid1, Hvalid2.
  injection Hvalid1 as V1. injection Hvalid2 as V2.
  unfold main, bind. rewrite !startGame_string, V1, V2. repeat split.
Qed.

Lemma startup_values_unused_witness :
  validateDiceInput (Some (lit "1,2,3")) new_DiceGame = (Normal true, new_DiceGame)
  /\ validateDiceInput (Some (lit "9, 8 ,7,6x")) new_DiceGame
     = (Normal true, new_DiceGame)
  /\ main sample_env (Some (lit "1,2,3")) [lit "1"; lit "2"]
     = main sample_env (Some (lit "9, 8 ,7,6x")) [lit "1"; lit "2"].
Proof.
  split; [reflexivity|]. split; [reflexivity|].
  exact (proj1 (startup_values_unused sample_env (lit "1,2,3")
                  (lit "9, 8 ,7,6x") [lit "1"; lit "2"] eq_refl eq_refl)).
Defined.

(** ** Leaving and staying *)

(** X8: at every prompt the answers ["X"] and ["x"], and no others, are the
    exit command; it writes the exit message and closes the session without
    revealing, rolling or consuming anything, and every line typed after
    that is ignored. *)
Theorem exit_closes_session
    (env : Env) (g : Game) (q : Question) (a : jsstring)
    (Hopen : rl_closed g = false)
    (Hpending : pending g = Some q)
    (Hexit : a = lit "X" \/ a = lit "x") :
  is_exit a = true
  /\ line env a g = (Normal tt, closed_with OutExiting (set_pending None g))
  /\ phase (closed_with OutExiting (set_pending None g)) = Done
  /\ console (closed_with OutExiting (set_pending None g))
     = OutExiting :: console g
  /\ (forall more,
        lines env more (closed_with OutExiting (set_pending None g))
        = (Normal tt, closed_with OutExiting (set_pending None g)))
  /\ (forall b, is_exit b = true <-> b = lit "X" \/ b = lit "x").
Proof.
  apply is_exit_spec in Hexit.
  split; [exact Hexit|]. split; [|split; [reflexivity|split; [reflexivity|split]]].
  - unfold line. rewrite Hopen, Hpending.
    destruct q; cbn [callback];
      [apply on_exit_guess | apply on_exit_dice | apply on_exit_comp
      | apply on_exit_user]; exact Hexit.
  - intros more. now apply lines_closed.
  - exact is_exit_spec.
Qed.

Lemma exit_closes_session_witness :
  rl_closed sample_comp_round = false
  /\ pending sample_comp_round = Some (QCompRound 4)
  /\ line sample_env (lit "x") sample_comp_round
     = (Normal tt, closed_with OutExiting (set_pending None sample_comp_round)).
Proof.
  split; [reflexivity|]. split; [reflexivity|].
  exact (proj1 (proj2 (exit_closes_session sample_env sample_comp_round
                         (QCompRound 4) (lit "x") eq_refl eq_refl
                         (or_intror eq_refl)))).
Defined.

(** X9: at the guess prompt every answer other than ["X"], ["x"], ["?"],
    ["0"] and ["1"] is refused and the prompt is repeated under the same
    commitment: key, committed value and tag are the ones disclosed before,
    nothing is revealed and no random value is consumed. *)
Theorem invalid_guess_keeps_commitment
    (env : Env) (g : Game) (a : jsstring)
    (Hopen : rl_closed g = false)
    (Hpending : pending g = Some QGuess)
    (Hother : ~ In a [lit "X"; lit "x"; lit "?"; lit "0"; lit "1"]) :
  exists g',
    line env a g = (Normal tt, g')
    /\ phase g' = FirstMove
    /\ console g' = OutGuessMenu :: OutInvalidGuess :: console g
    /\ pending_commitment g' = pending_commitment g
    /\ (diceSet g', crypto_pos g', math_pos g')
       = (diceSet g, crypto_pos g, math_pos g).
Proof.
  cbn [In] in Hother.
  assert (X : is_exit a = false).
  { apply not_true_is_false. intros H. apply is_exit_spec in H.
    destruct H as [-> | ->]; tauto. }
  assert (H1 : str_eqb a (lit "?") = false)
    by (apply str_eqb_neq; intros ->; tauto).
  assert (H2 : str_eqb a (lit "0") || str_eqb a (lit "1") = false).
  { rewrite !str_eqb_neq; [reflexivity|intros ->; tauto|intros ->; tauto]. }
  eexists. split.
  - unfold line. rewrite Hopen, Hpending. cbn [callback].
    apply (on_guess_rejected env a _ X H1 H2).
  - unfold phase, pending_commitment. cbn. rewrite Hopen, Hpending.
    repeat split.
Qed.

Lemma invalid_guess_keeps_commitment_witness :
  let g := snd (main sample_env (Some (lit "1,2,3")) []) in
  rl_closed g = false /\ pending g = Some QGuess
  /\ ~ In (lit "2") [lit "X"; lit "x"; lit "?"; lit "0"; lit "1"]
  /\ exists g',
       line sample_env (lit "2") g = (Normal tt, g')
       /\ pending_commitment g' = pending_commitment g.
Proof.
  cbv zeta. split; [reflexivity|]. split; [reflexivity|].
  assert (H : ~ In (lit "2") [lit "X"; lit "x"; lit "?"; lit "0"; lit "1"]).
  { vm_compute. intuition discriminate. }
  split; [exact H|].
  destruct (invalid_guess_keeps_commitment sample_env
              (snd (main sample_env (Some (lit "1,2,3")) []))
              (lit "2") eq_refl eq_refl H)
    as (g' & H1 & _ & _ & H2 & _).
  exists g'. split; assumption.
Defined.

Lemma strict_eq_of_Z (a b : Z) : strict_eq_Z (of_Z a) b = (a =? b).
Proof.
  unfold strict_eq_Z, of_Z.
  destruct (a =? b) eqn:E.
  - apply Z.eqb_eq in E. subst. apply Qeq_bool_iff. reflexivity.
  - apply Z.eqb_neq in E. apply not_true_is_false. intros H.
    apply Qeq_bool_iff in H. unfold Qeq, inject_Z in H. cbn in H. lia.
Qed.

(** X10: the guess only decides one message.  After the answer ["0"] or
    ["1"] the committed value and its key are revealed, the message that the
    computer moves first is written exactly when the guess differs from the
    committed value, and the dice menu follows; apart from that message the
    two answers lead to the same state. *)
Theorem first_move_is_cosmetic
    (env : Env) (g : Game) (pool : list Dice) (c : Z)
    (Hopen : rl_closed g = false)
    (Hpending : pending g = Some QGuess)
    (Hpool : diceSet g = Some pool)
    (Hvalue : compChoice g = Some c) :
  exists g0 g1,
    line env (lit "0") g = (Normal tt, g0)
    /\ line env (lit "1") g = (Normal tt, g1)
    /\ console g0
       = OutChooseMenu (List.map values pool) :: OutChooseDice
         :: (if c =? 0 then [] else [OutIMoveFirst])
         ++ OutMySelection (Some c) (key g) :: console g
    /\ console g1
       = OutChooseMenu (List.map values pool) :: OutChooseDice
         :: (if c =? 1 then [] else [OutIMoveFirst])
         ++ OutMySelection (Some c) (key g) :: console g
    /\ set_console [] g0 = set_console [] g1
    /\ phase g0 = DiceSelection
    /\ (diceSet g0, userDice g0, compDice g0, crypto_pos g0, math_pos g0)
       = (diceSet g, userDice g, compDice g, crypto_pos g, math_pos g).
Proof.
  exists (first_move_resolved (of_Z 0) pool (set_pending None g)),
         (first_move_resolved (of_Z 1) pool (set_pending None g)).
  split; [|split].
  - unfold line. rewrite Hopen, Hpending. cbn [callback].
    exact (on_guess_resolved env (lit "0") pool (set_pending None g)
             eq_refl eq_refl eq_refl Hpool).
  - unfold line. rewrite Hopen, Hpending. cbn [callback].
    exact (on_guess_resolved env (lit "1") pool (set_pending None g)
             eq_refl eq_refl eq_refl Hpool).
  - unfold first_move_resolved, dice_prompted, phase.
    cbn [console compChoice key set_pending set_console rl_closed pending
         diceSet userDice compDice crypto_pos math_pos].
    rewrite Hvalue, Hopen, !strict_eq_of_Z.
    rewrite (Z.eqb_sym 0 c), (Z.eqb_sym 1 c).
    destruct (c =? 0), (c =? 1); repeat split.
Qed.

Lemma first_move_is_cosmetic_witness :
  let g := snd (main sample_env (Some (lit "1,2,3")) []) in
  rl_closed g = false /\ pending g = Some QGuess /\ diceSet g = Some preset
  /\ compChoice g = Some 0
  /\ exists g0 g1,
       line sample_env (lit "0") g = (Normal tt, g0)
       /\ line sample_env (lit "1") g = (Normal tt, g1)
       /\ set_console [] g0 = set_console [] g1.
Proof.
  cbv zeta. repeat (split; [reflexivity|]).
  destruct (first_move_is_cosmetic sample_env
              (snd (main sample_env (Some (lit "1,2,3")) []))
              preset 0 eq_refl eq_refl eq_refl eq_refl)
    as (g0 & g1 & H0 & H1 & _ & _ & H2 & _).
  exists g0, g1. repeat split; assumption.
Defined.

(** ** The help table *)

Lemma set_math_pos_eq (p q : nat) (g : Game) :
  p = q -> set_math_pos p g = set_math_pos q g.
Proof. now intros ->. Qed.

Lemma win_loop_count (env : Env) (u c : Dice) (n : N) (g : Game) :
  exists w,
    N.iter n
      (fun loop : M Z =>
         wins <- loop ;;
         userRoll <- roll env u ;;
         compRoll <- roll env c ;;
         ret (if js_gt userRoll compRoll then wins + 1 else wins))
      (ret 0) g
    = (Normal w, set_math_pos (math_pos g + 2 * N.to_nat n) g)
    /\ 0 <= w <= Z.of_N n.
Proof.
  induction n as [|n IH] using N.peano_ind.
  - exists 0. split; [|lia]. cbn [N.iter N.to_nat].
    rewrite Nat.mul_0_r, Nat.add_0_r, set_math_pos_id. reflexivity.
  - destruct IH as (w & IH & Hw). rewrite N.iter_succ.
    unfold bind at 1. rewrite IH.
    unfold bind at 1. rewrite roll_run.
    unfold bind at 1. rewrite roll_run.
    eexists. split.
    + unfold ret. apply (f_equal2 pair); [reflexivity|].
      transitivity (set_math_pos (S (S (math_pos g + 2 * N.to_nat n))) g);
        [reflexivity|apply set_math_pos_eq; lia].
    + destruct (js_gt _ _); lia.
Qed.

(** A quotient that is at most an integer below [2^52] is rounded to a
    double that is at most that integer: rounding does not cross a double. *)
Lemma make_number_le (n d K : Z) :
  0 <= n -> 0 < d -> 0 < K < 2 ^ 52 -> n <= K * d ->
  exists q, make_number false n d = Finite q
            /\ (0 <= q)%Q /\ (q <= inject_Z K)%Q.
Proof.
  intros Hn Hd HK Hle. unfold make_number, round_magnitude.
  destruct (n =? 0) eqn:Hz.
  { eexists. split; [reflexivity|]. unfold Qle, inject_Z. cbn [Qnum Qden].
    change (1 * 0 * 2 ^ 0) with 0. lia. }
  apply Z.eqb_neq in Hz. assert (Hn' : 0 < n) by lia.
  destruct (binade_lower n d Hn' Hd) as (B1 & B2).
  set (b := binade n d) in *.
  assert (Hb : b < 52).
  { destruct (Z.lt_ge_cases b 52) as [|Hge]; [easy|exfalso].
    specialize (B1 ltac:(lia)).
    pose proof (Z.pow_le_mono_r 2 52 b ltac:(lia) Hge). nia. }
  set (e := Z.max (b - 52) (-1074)).
  assert (He : e < 0) by (unfold e; lia).
  replace (0 <=? e) with false by (symmetry; apply Z.leb_gt; exact He).
  cbn [andb]. cbv beta iota.
  replace (0 <=? e) with false by (symmetry; apply Z.leb_gt; exact He).
  set (k := - e). assert (Hk : 0 < k) by (unfold k; lia).
  assert (Hpk : 0 < 2 ^ k) by (apply Z.pow_pos_nonneg; lia).
  set (m := round_half_even (n * 2 ^ k) d).
  assert (Hm : 0 <= m <= K * 2 ^ k).
  { unfold m.
    pose proof (Z.div_mod (n * 2 ^ k) d ltac:(lia)) as Hdm.
    pose proof (Z.mod_pos_bound (n * 2 ^ k) d Hd) as Hr.
    assert (Hq0 : 0 <= n * 2 ^ k / d) by (apply Z.div_pos; nia).
    assert (HqJ : n * 2 ^ k / d <= K * 2 ^ k)
      by (apply Z.div_le_upper_bound; nia).
    destruct (round_half_even_cases (n * 2 ^ k) d) as [-> | [-> Hhalf]]; [lia|].
    split; [lia|].
    destruct (Z.eq_dec (n * 2 ^ k / d) (K * 2 ^ k)) as [Heq|]; [|lia].
    exfalso. rewrite Heq in Hdm. nia. }
  eexists. split; [reflexivity|].
  rewrite Qred_correct. unfold Qle, inject_Z. cbn [Qnum Qden].
  rewrite Z2Pos.id by exact Hpk. lia.
Qed.

(** The percentage [(wins / trials) * 100] of at most [trials] wins is a
    double between 0 and 100. *)
Lemma percentage_bounds (wins trials : Z) :
  0 < trials -> 0 <= wins <= trials ->
  exists q, mul_Z (div_Z wins trials) 100 = Finite q
            /\ (0 <= q)%Q /\ (q <= 100)%Q.
Proof.
  intros Ht Hw. unfold div_Z.
  destruct (make_number_le wins trials 1 ltac:(lia) Ht ltac:(split; reflexivity)
              ltac:(lia)) as (q1 & -> & H0 & H1).
  unfold mul_Z. unfold Qle, inject_Z in H0, H1. cbn [Qnum Qden] in H0, H1.
  replace (Qnum q1 <? 0) with false by (symmetry; apply Z.ltb_ge; lia).
  rewrite Z.abs_eq by lia.
  apply (make_number_le (Qnum q1 * 100) (Zpos (Qden q1)) 100);
    [lia|lia|split; reflexivity|lia].
Qed.

(** X11: [calculateWinProbability] rolls each of the two dice 10000 times,
    so it consumes 20000 results of [Math.random] and changes nothing else,
    and the percentage it returns, the double [(wins / 10000) * 100] with
    both roundings, is a finite number between 0 and 100. *)
Theorem calculateWinProbability_bounds (env : Env) (u c : Dice) (g : Game) :
  exists q,
    calculateWinProbability env u c g
    = (Normal (Finite q), set_math_pos (math_pos g + N.to_nat 20000) g)
    /\ (0 <= q)%Q /\ (q <= 100)%Q.
Proof.
  unfold calculateWinProbability. unfold bind at 1.
  destruct (win_loop_count env u c 10000 g) as (w & -> & Hw).
  change (Z.of_N 10000) with 10000 in *.
  destruct (percentage_bounds w 10000 ltac:(lia) Hw) as (q & Hq & Hb).
  exists q. split; [|exact Hb].
  unfold ret. rewrite Hq. apply (f_equal2 pair); [reflexivity|].
  apply set_math_pos_eq. lia.
Qed.

Lemma probability_rows_count (env : Env) (pairs : list (list Z * list Z)) :
  Forall (fun uc => fst uc <> [] /\ snd uc <> []) pairs ->
  forall g, exists rows,
    probability_rows env pairs g
    = (Normal rows,
       set_math_pos (math_pos g + List.length pairs * N.to_nat 20000) g)
    /\ List.map fst rows = pairs
    /\ Forall (fun row => exists q, snd row = Finite q
                                    /\ (0 <= q)%Q /\ (q <= 100)%Q) rows.
Proof.
  induction 1 as [|[u c] rest [Hu Hc] _ IH]; intros g.
  - exists []. cbn [probability_rows List.length Nat.mul List.map].
    rewrite Nat.add_0_r, set_math_pos_id. repeat split. constructor.
  - cbn in Hu, Hc. destruct u as [|u0 u]; [easy|]. destruct c as [|c0 c]; [easy|].
    cbn [probability_rows]. unfold bind at 1. cbn [Dice_new List.length Nat.ltb Nat.leb ret].
    unfold bind at 1. cbn [Dice_new List.length Nat.ltb Nat.leb ret].
    unfold bind at 1.
    assert (Hcalc : exists q,
              calculateWinProbability env {| values := u0 :: u |}
                {| values := c0 :: c |} g
              = (Normal (Finite q),
                 set_math_pos (math_pos g + N.to_nat 20000) g)
              /\ (0 <= q)%Q /\ (q <= 100)%Q).
    { unfold calculateWinProbability. unfold bind at 1.
      destruct (win_loop_count env {| values := u0 :: u |}
                  {| values := c0 :: c |} 10000 g) as (w & -> & Hw).
      change (Z.of_N 10000) with 10000 in *.
      destruct (percentage_bounds w 10000 ltac:(lia) Hw) as (q & Hq & Hb).
      exists q. split; [|exact Hb].
      unfold ret. rewrite Hq. apply (f_equal2 pair); [reflexivity|].
      apply set_math_pos_eq. lia. }
    destruct Hcalc as (q & -> & Hq).
    unfold bind at 1.
    destruct (IH (set_math_pos (math_pos g + N.to_nat 20000) g))
      as (rows & -> & Hrows & Hb).
    eexists. split; [|split].
    + unfold ret. apply (f_equal2 pair); [reflexivity|].
      transitivity (set_math_pos (math_pos g + N.to_nat 20000
                                  + List.length rest * N.to_nat 20000) g);
        [reflexivity|apply set_math_pos_eq; cbn [List.length]; lia].
    + cbn [List.map fst values]. now rewrite Hrows.
    + constructor; [exists q; split; [reflexivity|exact Hq]|exact Hb].
Qed.

(** X12: the answer ["?"] at the guess prompt writes the help table and asks
    for the guess again under the same commitment.  The table has a row for
    each of the three pairs of preset dice, each with a percentage, the
    double the program computed, that is finite and between 0 and 100, and
    making it consumes 60000 results of [Math.random]: the rolls of a game
    played after asking for help are drawn further down the random
    sequence.  Nothing else changes. *)
Theorem help_consumes_random_numbers
    (env : Env) (g : Game)
    (Hopen : rl_closed g = false)
    (Hpending : pending g = Some QGuess) :
  exists rows g',
    line env (lit "?") g = (Normal tt, g')
    /\ console g' = OutGuessMenu :: OutHelpTable rows :: OutHelpIntro :: console g
    /\ List.map fst rows
       = [ ([2; 2; 4; 4; 9; 9], [1; 1; 6; 6; 8; 8]);
           ([2; 2; 4; 4; 9; 9], [3; 3; 5; 5; 7; 7]);
           ([1; 1; 6; 6; 8; 8], [3; 3; 5; 5; 7; 7]) ]
    /\ Forall (fun row => exists q, snd row = Finite q
                                    /\ (0 <= q)%Q /\ (q <= 100)%Q) rows
    /\ math_pos g' = (math_pos g + N.to_nat 60000)%nat
    /\ phase g' = FirstMove
    /\ pending_commitment g' = pending_commitment g
    /\ (diceSet g', userDice g', compDice g', crypto_pos g')
       = (diceSet g, userDice g, compDice g, crypto_pos g).
Proof.
  assert (Hpairs : Forall (fun uc : list Z * list Z => fst uc <> [] /\ snd uc <> [])
            [ ([2; 2; 4; 4; 9; 9], [1; 1; 6; 6; 8; 8]);
              ([2; 2; 4; 4; 9; 9], [3; 3; 5; 5; 7; 7]);
              ([1; 1; 6; 6; 8; 8], [3; 3; 5; 5; 7; 7]) ])
    by (repeat constructor; discriminate).
  destruct (probability_rows_count env _ Hpairs
              (set_console (OutHelpIntro :: console (set_pending None g))
                 (set_pending None g)))
    as (rows & Hrun & Hrows & Hb).
  exists rows. eexists. split.
  - unfold line. rewrite Hopen, Hpending. cbn [callback].
    unfold on_guess.
    replace (is_exit (lit "?")) with false by reflexivity.
    replace (str_eqb (lit "?") (lit "?")) with true by reflexivity.
    unfold displayHelp. unfold bind at 1. cbn [console_log modify].
    unfold bind at 1. unfold generateProbabilityTable. rewrite Hrun.
    reflexivity.
  - unfold phase, pending_commitment, promptUser.
    cbn [console math_pos set_console set_pending set_math_pos rl_closed
         pending compChoice key hmac diceSet userDice compDice crypto_pos
         bind ret console_log modify rl_question].
    rewrite Hopen.
    split; [reflexivity|]. split; [exact Hrows|]. split; [exact Hb|].
    split; [cbn [List.length]; lia|]. rewrite Hpending. repeat split.
Qed.


Lemma help_consumes_random_numbers_witness :
  let g := snd (main sample_env (Some (lit "1,2,3")) []) in
  rl_closed g = false /\ pending g = Some QGuess
  /\ exists (rows : list (list Z * list Z * number)) g',
       line sample_env (lit "?") g = (Normal tt, g')
       /\ List.length rows = 3%nat
       /\ math_pos g' = (math_pos g + N.to_nat 60000)%nat.
Proof.
  cbv zeta. split; [reflexivity|]. split; [reflexivity|].
  destruct (help_consumes_random_numbers sample_env
              (snd (main sample_env (Some (lit "1,2,3")) [])) eq_refl eq_refl)
    as (rows & g' & H1 & _ & H2 & _ & H3 & _).
  exists rows, g'. split; [exact H1|]. split; [|exact H3].
  rewrite <- (length_map fst), H2. reflexivity.
Defined.

(** X13: help is served at the guess prompt only.  At the dice prompt the
    answer ["?"] is refused as an invalid choice and the menu shown again;
    at both prompts of the roll exchange it is refused as an invalid number
    and the round starts again with a fresh commitment. *)
Theorem help_only_at_guess_prompt
    (env : Env) (g : Game) (q : Question)
    (Hopen : rl_closed g = false)
    (Hpending : pending g = Some q)
    (Hq : q <> QGuess) :
  match q with
  | QDice =>
      forall pool, diceSet g = Some pool ->
        line env (lit "?") g
        = (Normal tt, dice_prompted pool (OutInvalidDiceChoice :: console g) g)
  | _ =>
      line env (lit "?") g
      = (Normal tt, restarted env (set_console (OutInvalidNumber :: console g) g))
  end.
Proof.
  unfold line. rewrite Hopen, Hpending.
  destruct q as [| |c|cr c]; [easy| | |]; cbn [callback].
  - intros pool Hpool.
    exact (on_dice_rejected env (lit "?") pool (set_pending None g)
             eq_refl Hpool eq_refl).
  - exact (on_comp_round_rejected env c (lit "?") OutInvalidNumber
             (set_pending None g) eq_refl eq_refl).
  - exact (on_user_round_rejected env cr c (lit "?") OutInvalidNumber
             (set_pending None g) eq_refl eq_refl).
Qed.

Lemma help_only_at_guess_prompt_witness :
  rl_closed sample_user_round = false
  /\ pending sample_user_round = Some (QUserRound (Some 1) 2)
  /\ QUserRound (Some 1) 2 <> QGuess
  /\ line sample_env (lit "?") sample_user_round
     = (Normal tt,
        restarted sample_env
          (set_console (OutInvalidNumber :: console sample_user_round)
             sample_user_round)).
Proof.
  split; [reflexivity|]. split; [reflexivity|]. split; [discriminate|].
  exact (help_only_at_guess_prompt sample_env sample_user_round
           (QUserRound (Some 1) 2) eq_refl eq_refl ltac:(discriminate)).
Defined.

(** ** What a contribution can be *)

(** X14: whenever [parseIntegerInput] returns a value instead of [null], it
    has written nothing, and the value is an integer from 0 to 5 or [NaN];
    [NaN] does come back, for the input [".0"], and the fair result
    disclosed for it is [NaN]. *)
Theorem parseIntegerInput_result
    (a : jsstring) (g g' : Game) (x : number)
    (Hreturn : parseIntegerInput a g = (Normal (Some x), g')) :
  g' = g
  /\ x = parseInt a
  /\ (x = NaN \/ exists z, 0 <= z <= 5 /\ x = of_Z z)
  /\ parseIntegerInput (lit ".0") g = (Normal (Some NaN), g)
  /\ (forall c, fairResult c NaN = NaN).
Proof.
  rewrite parseIntegerInput_run in Hreturn.
  destruct (integer_input_error a) as [o|] eqn:E; [discriminate|].
  injection Hreturn as <- <-.
  split; [reflexivity|]. split; [reflexivity|]. split; [|split; reflexivity].
  destruct (accepted_contribution a E) as [H|(z & Hz & H & _)]; [now left|].
  right. now exists z.
Qed.

Lemma parseIntegerInput_result_witness :
  parseIntegerInput (lit "4") new_DiceGame = (Normal (Some (of_Z 4)), new_DiceGame)
  /\ (of_Z 4 = NaN \/ exists z, 0 <= z <= 5 /\ of_Z 4 = of_Z z).
Proof.
  split; [reflexivity|].
  exact (proj1 (proj2 (proj2 (parseIntegerInput_result (lit "4") new_DiceGame
                                new_DiceGame (of_Z 4) eq_refl)))).
Defined.

(** ** Whole sessions *)

(** X15: a session started with a string never ends in an uncaught
    exception, whatever the string is and whatever is typed: every callback
    finds the pool and the dice it reads. *)
Theorem session_never_throws
    (env : Env) (input : jsstring) (answers : list jsstring) :
  fst (main env (Some input) answers) = Normal tt.
Proof.
  now destruct (main_invariant env input answers) as (g & -> & _).
Qed.

Lemma face_defined (env : Env) (pos : nat) (d : Dice) :
  values d <> [] -> Z.of_nat (List.length (values d)) <= 2 ^ 52 ->
  exists v, face env pos d = Some v /\ In v (values d).
Proof.
  intros Hne Hsize. unfold face.
  assert (Hlen : 1 <= Z.of_nat (List.length (values d))).
  { destruct (values d); [easy|cbn [List.length]; lia]. }
  pose proof (Z.mod_pos_bound (math_random env pos) (2 ^ 53) ltac:(reflexivity))
    as Hu.
  destruct (floor_rounded_below _ _ Hu (conj Hlen Hsize)) as (i & -> & Hi).
  destruct (nth_error (values d) (Z.to_nat i)) as [v|] eqn:Hn.
  - exists v. split; [reflexivity|]. now apply nth_error_In with (Z.to_nat i).
  - apply nth_error_None in Hn. lia.
Qed.

Lemma preset_face (env : Env) (pos : nat) (d : Dice) :
  In d preset -> exists v, face env pos d = Some v /\ In v (values d).
Proof.
  intros H. apply face_defined.
  - cbn in H. intuition (subst; discriminate).
  - cbn in H. intuition (subst; vm_compute; discriminate).
Qed.

Ltac console_cases :=
  repeat match goal with
         | H : In _ (_ :: _) |- _ => cbn [In] in H
         | H : _ \/ _ |- _ => destruct H as [H|H]
         | H : _ = _ |- _ => discriminate H
         | H : OutYourRoll _ = OutYourRoll _ |- _ => injection H as <-
         | H : OutMyRoll _ = OutMyRoll _ |- _ => injection H as <-
         | H : OutYouWin _ _ = OutYouWin _ _ |- _ => injection H as <- <-
         end.

Lemma rolls_console_only (g g' : Game) (quiet : list Output) :
  rolls_from_dice g ->
  userDice g' = userDice g -> compDice g' = compDice g ->
  console g' = quiet ++ console g ->
  (forall o, In o quiet ->
     match o with
     | OutYourRoll _ | OutMyRoll _ | OutYouWin _ _ => False
     | _ => True
     end) ->
  (rl_closed g' = false ->
   match pending g' with Some (QUserRound _ _) => False | _ => True end) ->
  rolls_from_dice g'.
Proof.
  intros (R1 & R2 & R3 & R4 & R5 & R6 & R7) Hu Hc Hlog Hq Hp.
  assert (Hin : forall o,
            match o with
            | OutYourRoll _ | OutMyRoll _ | OutYouWin _ _ => True
            | _ => False
            end ->
            In o (console g') -> In o (console g)).
  { intros o Ho H. rewrite Hlog in H. apply in_app_or in H as [H|H]; [|exact H].
    specialize (Hq o H). destruct o; contradiction. }
  unfold rolls_from_dice. rewrite Hu, Hc.
  split; [|split; [|split; [|split; [|split; [|split]]]]].
  - intros r H. apply (Hin (OutYourRoll r) I) in H. auto.
  - intros r H. apply (Hin (OutMyRoll r) I) in H. auto.
  - exact R3.
  - exact R4.
  - exact R5.
  - intros cr c Ho Hpend. specialize (Hp Ho). now rewrite Hpend in Hp.
  - intros u c H. apply (Hin (OutYouWin u c) I) in H.
    destruct (R7 u c H) as (H1 & H2).
    rewrite Hlog. split; apply in_or_app; now right.
Qed.

Lemma remove_at_incl {A} (l : list A) (i : nat) (x : A) :
  In x (firstn i l ++ skipn (S i) l) -> In x l.
Proof.
  revert l. induction i as [|i IH]; intros [|y l] H; try easy.
  - now right.
  - cbn in H. destruct H as [H|H]; [now left|right; now apply IH].
Qed.

Ltac quiet_step g l R :=
  apply (rolls_console_only g _ l R);
  try reflexivity; try discriminate;
  try (let o := fresh "o" in
       let Ho := fresh "Ho" in
       intros o Ho; cbn [In] in Ho; intuition (subst; exact I)).

Lemma line_rolls (env : Env) (a : jsstring) (g g' : Game) :
  session_invariant env g -> rolls_from_dice g ->
  line env a g = (Normal tt, g') -> rolls_from_dice g'.
Proof.
  intros (_ & _ & _ & P) R. unfold line.
  destruct (rl_closed g) eqn:Hc; [now intros [= <-]|].
  destruct (pending g) as [q|] eqn:Hq; [|now intros [= <-]].
  specialize (P eq_refl).
  destruct (is_exit a) eqn:X.
  { assert (E : callback env q a (set_pending None g)
                = (Normal tt, closed_with OutExiting (set_pending None g))).
    { destruct q; cbn [callback];
        [apply on_exit_guess | apply on_exit_dice | apply on_exit_comp
        | apply on_exit_user]; assumption. }
    rewrite E. intros [= <-].
    quiet_step g [OutExiting] R. }
  destruct q as [| |c|cr c]; cbn [callback].
  - destruct P as (Pd & _).
    destruct (str_eqb a (lit "?")) eqn:H.
    { destruct (on_guess_help env a (set_pending None g) X H) as (rows & p & ->).
      intros [= <-].
      quiet_step g [OutGuessMenu; OutHelpTable rows; OutHelpIntro] R. }
    destruct (str_eqb a (lit "0") || str_eqb a (lit "1")) eqn:V.
    + rewrite (on_guess_resolved env a preset (set_pending None g) X H V Pd).
      intros [= <-]. unfold first_move_resolved.
      destruct (match compChoice (set_pending None g) with
                | Some z => negb (strict_eq_Z (parseInt a) z)
                | None => true
                end).
      * quiet_step g [OutChooseMenu (List.map values preset); OutChooseDice;
                      OutIMoveFirst; OutMySelection (compChoice g) (key g)] R.
      * quiet_step g [OutChooseMenu (List.map values preset); OutChooseDice;
                      OutMySelection (compChoice g) (key g)] R.
    + rewrite (on_guess_rejected env a (set_pending None g) X H V).
      intros [= <-].
      quiet_step g [OutGuessMenu; OutInvalidGuess] R.
  - destruct P as (Pd & _ & Pu).
    destruct (index preset (parseInt a)) as [d|] eqn:Hi.
    + rewrite (on_dice_accepted env a preset d (set_pending None g) X Pd Hi).
      intros [= <-].
      destruct (index_splice preset (parseInt a) d Hi) as (i & _ & Hn & Hs).
      destruct R as (R1 & R2 & R3 & R4 & R5 & R6 & R7).
      assert (N1 : forall r, ~ In (OutYourRoll r) (console g)).
      { intros r Hr. destruct (R1 r Hr) as (d' & _ & E & _). congruence. }
      assert (N2 : forall r, ~ In (OutMyRoll r) (console g)).
      { intros r Hr. destruct (R2 r Hr) as (d' & _ & E & _).
        rewrite (R5 Pu) in E. discriminate. }
      unfold rolls_from_dice, dice_chosen. rewrite Hs. cbn [snd].
      cbn [console userDice compDice rl_closed pending restarted set_pending
           set_console set_hmac set_crypto_pos set_key set_compDice
           set_userDice set_diceSet].
      split; [|split; [|split; [|split; [|split; [|split]]]]].
      * intros r Hr. console_cases. now apply N1 in Hr.
      * intros r Hr. console_cases. now apply N2 in Hr.
      * intros d' [= <-]. now apply nth_error_In with i.
      * intros d' Hd. apply (remove_at_incl preset i).
        destruct (firstn i preset ++ skipn (S i) preset); [discriminate|].
        injection Hd as ->. now left.
      * discriminate.
      * discriminate.
      * intros u c Hw. console_cases.
        destruct (R7 u c Hw) as (Hy & _). now apply N1 in Hy.
    + rewrite (on_dice_rejected env a preset (set_pending None g) X Pd Hi).
      intros [= <-].
      quiet_step g [OutChooseMenu (List.map values preset); OutChooseDice;
                    OutInvalidDiceChoice] R.
  - destruct P as (_ & (cd & Pd) & _).
    destruct (integer_input_error a) as [o|] eqn:E.
    + rewrite (on_comp_round_rejected env c a o (set_pending None g) X E).
      intros [= <-].
      destruct (integer_input_error_cases a o E); subst o;
        [quiet_step g [OutCommit 5 (fresh_tag env (crypto_pos g) 6);
                       OutMyRollTime; OutInvalidNumber] R
        |quiet_step g [OutCommit 5 (fresh_tag env (crypto_pos g) 6);
                       OutMyRollTime; OutOutOfRange] R].
    + rewrite (on_comp_round_accepted env c a (set_pending None g) X E).
      cbn [compDice set_pending]. rewrite Pd. intros [= <-].
      destruct R as (R1 & R2 & R3 & R4 & R5 & R6 & R7).
      destruct (preset_face env (math_pos g) cd (R4 cd Pd)) as (v & Hv & Hin).
      unfold rolls_from_dice, comp_rolled, committed.
      cbn [console userDice compDice rl_closed pending math_pos set_pending
           set_console set_hmac set_crypto_pos set_key set_math_pos].
      rewrite Hv.
      split; [|split; [|split; [|split; [|split; [|split]]]]].
      * intros r Hr. console_cases. auto.
      * intros r Hr. console_cases; [eauto|auto].
      * exact R3.
      * exact R4.
      * exact R5.
      * intros cr' c' _ [= <- _]. cbn [In]. auto.
      * intros u c' Hw. console_cases. destruct (R7 u c' Hw). cbn [In]. auto 10.
  - destruct P as ((ud & Pu) & _).
    destruct (integer_input_error a) as [o|] eqn:E.
    + rewrite (on_user_round_rejected env cr c a o (set_pending None g) X E).
      intros [= <-].
      destruct (integer_input_error_cases a o E); subst o;
        [quiet_step g [OutCommit 5 (fresh_tag env (crypto_pos g) 6);
                       OutMyRollTime; OutInvalidNumber] R
        |quiet_step g [OutCommit 5 (fresh_tag env (crypto_pos g) 6);
                       OutMyRollTime; OutOutOfRange] R].
    + rewrite (on_user_round_accepted env cr c a (set_pending None g) X E).
      cbn [userDice set_pending]. rewrite Pu. intros [= <-].
      destruct R as (R1 & R2 & R3 & R4 & R5 & R6 & R7).
      destruct (preset_face env (math_pos g) ud (R3 ud Pu)) as (v & Hv & Hin).
      pose proof (R6 cr c Hc Hq) as Hcr.
      unfold rolls_from_dice, user_rolled, closed_with.
      cbn [console userDice compDice rl_closed pending math_pos set_pending
           set_console set_rl_closed set_math_pos].
      rewrite Hv.
      split; [|split; [|split; [|split; [|split; [|split]]]]].
      * intros r Hr. destruct (js_gt (Some v) cr); console_cases; eauto.
      * intros r Hr. destruct (js_gt (Some v) cr); console_cases; auto.
      * exact R3.
      * exact R4.
      * exact R5.
      * discriminate.
      * intros u c' Hw. destruct (js_gt (Some v) cr); console_cases;
          try (destruct (R7 u c' Hw)); cbn [In]; auto 10.
Qed.

Lemma lines_rolls (env : Env) (answers : list jsstring) :
  forall g g',
    session_invariant env g -> rolls_from_dice g ->
    lines env answers g = (Normal tt, g') -> rolls_from_dice g'.
Proof.
  induction answers as [|a rest IH]; intros g g' Inv R.
  - now intros [= <-].
  - destruct (line_invariant env a g Inv) as (g1 & H1 & Inv1).
    cbn [lines]. unfold bind. rewrite H1.
    apply (IH g1 g' Inv1). exact (line_rolls env a g g1 Inv R H1).
Qed.

Lemma quiet_rolls (g : Game) :
  userDice g = None -> compDice g = None ->
  (forall o, In o (console g) ->
     match o with
     | OutYourRoll _ | OutMyRoll _ | OutYouWin _ _ => False
     | _ => True
     end) ->
  (rl_closed g = false ->
   match pending g with Some (QUserRound _ _) => False | _ => True end) ->
  rolls_from_dice g.
Proof.
  intros Hu Hc Hq Hp. unfold rolls_from_dice. rewrite Hu, Hc.
  split; [|split; [|split; [|split; [|split; [|split]]]]].
  - intros r H. destruct (Hq _ H).
  - intros r H. destruct (Hq _ H).
  - discriminate.
  - discriminate.
  - reflexivity.
  - intros cr c Ho Hpend. specialize (Hp Ho). now rewrite Hpend in Hp.
  - intros u c H. destruct (Hq _ H).
Qed.

(** X16: in every session, whatever is typed, each roll the console shows
    is a face of the die assigned to the party that rolled (never
    [undefined]), the assigned dice are dice of the preset pool, and a
    "You win" message names two rolls that the console shows. *)
Theorem rolls_are_faces_of_assigned_dice
    (env : Env) (argv2 : option jsstring) (answers : list jsstring) :
  let g := snd (main env argv2 answers) in
  (forall r, In (OutYourRoll r) (console g) ->
     exists d v, userDice g = Some d /\ In d preset
                 /\ r = Some v /\ In v (values d))
  /\ (forall r, In (OutMyRoll r) (console g) ->
        exists d v, compDice g = Some d /\ In d preset
                    /\ r = Some v /\ In v (values d))
  /\ (forall u c, In (OutYouWin u c) (console g) ->
        In (OutYourRoll u) (console g) /\ In (OutMyRoll c) (console g)).
Proof.
  cbv zeta.
  assert (R : rolls_from_dice (snd (main env argv2 answers))).
  { destruct argv2 as [s|].
    - destruct (main_invariant env s answers) as (g & Hg & _).
      rewrite Hg. cbn [snd]. revert Hg.
      unfold main. unfold bind at 1. rewrite startGame_string.
      destruct (valid_dice_input s).
      + apply lines_rolls; [apply started_invariant|].
        apply quiet_rolls;
          [reflexivity|reflexivity
          |intros o Ho; cbn in Ho; intuition (subst; exact I)
          |first [discriminate|intros _; exact I]].
      + rewrite lines_closed by reflexivity. intros [= <-].
        apply quiet_rolls;
          [reflexivity|reflexivity
          |intros o Ho; cbn in Ho; intuition (subst; exact I)
          |first [discriminate|intros _; exact I]].
    - apply quiet_rolls;
          [reflexivity|reflexivity
          |intros o Ho; cbn in Ho; intuition (subst; exact I)
          |first [discriminate|intros _; exact I]]. }
  destruct R as (R1 & R2 & R3 & R4 & _ & _ & R7).
  split; [|split; [|exact R7]].
  - intros r H. destruct (R1 r H) as (d & v & Hd & Hr & Hv).
    exists d, v. auto.
  - intros r H. destruct (R2 r H) as (d & v & Hd & Hr & Hv).
    exists d, v. auto.
Qed.

Lemma small_numeral (z : Z) :
  0 <= z <= 5 ->
  is_exit (toString z) = false
  /\ integer_input_error (toString z) = None
  /\ parseInt (toString z) = of_Z z.
Proof.
  intros Hz.
  assert (H : z = 0 \/ z = 1 \/ z = 2 \/ z = 3 \/ z = 4 \/ z = 5) by lia.
  repeat destruct H as [H|H]; subst z; repeat split.
Qed.

Lemma step_guess (env : Env) (g : Game) (pool : list Dice) (a : jsstring) :
  rl_closed g = false -> pending g = Some QGuess -> diceSet g = Some pool ->
  a = lit "0" \/ a = lit "1" ->
  exists g',
    line env a g = (Normal tt, g')
    /\ rl_closed g' = false /\ pending g' = Some QDice
    /\ diceSet g' = Some pool
    /\ crypto_pos g' = crypto_pos g /\ math_pos g' = math_pos g.
Proof.
  intros Hopen Hpending Hpool Ha.
  exists (first_move_resolved (parseInt a) pool (set_pending None g)). split.
  - unfold line. rewrite Hopen, Hpending. cbn [callback].
    destruct Ha as [-> | ->];
      [exact (on_guess_resolved env (lit "0") pool (set_pending None g)
                eq_refl eq_refl eq_refl Hpool)
      |exact (on_guess_resolved env (lit "1") pool (set_pending None g)
                eq_refl eq_refl eq_refl Hpool)].
  - unfold first_move_resolved, dice_prompted.
    cbn [rl_closed pending diceSet crypto_pos math_pos set_pending set_console].
    rewrite Hopen, Hpool. repeat split.
Qed.

Lemma step_dice (env : Env) (g : Game) (pool : list Dice) (a : jsstring)
                (d : Dice) (i : nat) :
  rl_closed g = false -> pending g = Some QDice -> diceSet g = Some pool ->
  is_exit a = false -> index pool (parseInt a) = Some d ->
  to_Z (parseInt a) = Some (Z.of_nat i) ->
  exists g',
    line env a g = (Normal tt, g')
    /\ rl_closed g' = false
    /\ pending g' = Some (QCompRound (fresh_value env (crypto_pos g) 6))
    /\ userDice g' = Some d
    /\ compDice g' = hd_error (firstn i pool ++ skipn (S i) pool)
    /\ crypto_pos g' = (crypto_pos g + 32 + 4)%nat /\ math_pos g' = math_pos g.
Proof.
  intros Hopen Hpending Hpool X Hidx Hi.
  exists (dice_chosen env (parseInt a) pool d (set_pending None g)). split.
  - unfold line. rewrite Hopen, Hpending. cbn [callback].
    exact (on_dice_accepted env a pool d (set_pending None g) X Hpool Hidx).
  - destruct (index_splice pool (parseInt a) d Hidx) as (j & Hj & _ & Hs).
    rewrite Hi in Hj. injection Hj as Hj. apply Nat2Z.inj in Hj. subst j.
    unfold dice_chosen, restarted. rewrite Hs.
    cbn [snd rl_closed pending userDice compDice crypto_pos math_pos
         set_pending set_console set_hmac set_crypto_pos set_key set_compDice
         set_userDice set_diceSet].
    rewrite Hopen. repeat split.
Qed.

Lemma step_comp (env : Env) (g : Game) (c : Z) (a : jsstring) (cd : Dice) :
  rl_closed g = false -> pending g = Some (QCompRound c) ->
  compDice g = Some cd ->
  is_exit a = false -> integer_input_error a = None ->
  exists g',
    line env a g = (Normal tt, g')
    /\ rl_closed g' = false
    /\ pending g' = Some (QUserRound (face env (math_pos g) cd)
                            (fresh_value env (crypto_pos g) 6))
    /\ userDice g' = userDice g /\ compDice g' = compDice g
    /\ crypto_pos g' = (crypto_pos g + 32 + 4)%nat
    /\ math_pos g' = S (math_pos g).
Proof.
  intros Hopen Hpending Hdie X E.
  exists (comp_rolled env c (parseInt a) cd (set_pending None g)). split.
  - unfold line. rewrite Hopen, Hpending. cbn [callback].
    rewrite (on_comp_round_accepted env c a (set_pending None g) X E).
    cbn [compDice set_pending]. now rewrite Hdie.
  - unfold comp_rolled, committed.
    cbn [rl_closed pending userDice compDice crypto_pos math_pos
         set_pending set_console set_hmac set_crypto_pos set_key set_math_pos].
    rewrite Hopen. repeat split.
Qed.

Lemma step_user (env : Env) (g : Game) (cr : option Z) (c : Z) (a : jsstring)
                (ud : Dice) :
  rl_closed g = false -> pending g = Some (QUserRound cr c) ->
  userDice g = Some ud ->
  is_exit a = false -> integer_input_error a = None ->
  exists g',
    line env a g = (Normal tt, g')
    /\ phase g' = Done
    /\ hd_error (console g')
       = Some (if js_gt (face env (math_pos g) ud) cr
               then OutYouWin (face env (math_pos g) ud) cr else OutIWin)
    /\ userDice g' = userDice g /\ compDice g' = compDice g
    /\ crypto_pos g' = crypto_pos g /\ math_pos g' = S (math_pos g).
Proof.
  intros Hopen Hpending Hdie X E.
  exists (user_rolled env cr c (parseInt a) ud (set_pending None g)). split.
  - unfold line. rewrite Hopen, Hpending. cbn [callback].
    rewrite (on_user_round_accepted env cr c a (set_pending None g) X E).
    cbn [userDice set_pending]. now rewrite Hdie.
  - unfold user_rolled, closed_with, phase.
    cbn [rl_closed pending userDice compDice crypto_pos math_pos console
         set_pending set_console set_rl_closed set_math_pos hd_error].
    repeat split.
Qed.

(** X17: a whole game.  After a valid startup input, a guess, the numeral
    of a pool index and the numerals of two contributions from 0 to 5, the
    session is over: the human holds the chosen preset die, the computer the
    first die of the rest, the computer's roll is the face its die shows for
    the first result of [Math.random] and the human's roll the face for the
    second, and the last message is "You win" exactly when the human's roll
    is the greater one.  Guess, commitments and contributions have no part
    in the outcome.  The game consumes 108 random bytes and two results of
    [Math.random]. *)
Theorem game_outcome
    (env : Env) (input guess : jsstring) (i : nat) (z1 z2 : Z)
    (Hinput : validateDiceInput (Some input) new_DiceGame
              = (Normal true, new_DiceGame))
    (Hguess : guess = lit "0" \/ guess = lit "1")
    (Hindex : (i < 3)%nat)
    (Hfirst : 0 <= z1 <= 5)
    (Hsecond : 0 <= z2 <= 5) :
  exists g ud cd u c,
    main env (Some input)
      [guess; toString (Z.of_nat i); toString z1; toString z2]
    = (Normal tt, g)
    /\ phase g = Done
    /\ nth_error preset i = Some ud
    /\ hd_error (firstn i preset ++ skipn (S i) preset) = Some cd
    /\ userDice g = Some ud /\ compDice g = Some cd
    /\ face env 0 cd = Some c /\ In c (values cd)
    /\ face env 1 ud = Some u /\ In u (values ud)
    /\ hd_error (console g)
       = Some (if c <? u then OutYouWin (Some u) (Some c) else OutIWin)
    /\ crypto_pos g = 108%nat /\ math_pos g = 2%nat.
Proof.
  rewrite validateDiceInput_string in Hinput. injection Hinput as Hv.
  destruct (small_numeral z1 Hfirst) as (X1 & E1 & _).
  destruct (small_numeral z2 Hsecond) as (X2 & E2 & _).
  assert (Hexact : - 2 ^ 53 < Z.of_nat i < 2 ^ 53).
  { assert (2 ^ 53 = 9007199254740992) by reflexivity. lia. }
  destruct (toString_plain (Z.of_nat i)) as (_ & _ & X0).
  pose proof (parseInt_toString _ Hexact) as P0.
  destruct (nth_error preset i) as [ud|] eqn:Hud.
  2:{ apply nth_error_None in Hud. cbn in Hud. lia. }
  assert (Iud : In ud preset) by now apply nth_error_In with i.
  pose proof (remove_at_length preset i ud Hud) as Hlen.
  destruct (firstn i preset ++ skipn (S i) preset) as [|cd rest] eqn:Hrest.
  { cbn in Hlen. lia. }
  assert (Icd : In cd preset).
  { apply (remove_at_incl preset i). rewrite Hrest. now left. }
  destruct (preset_face env 0 cd Icd) as (c & Hc & Hcin).
  destruct (preset_face env 1 ud Iud) as (u & Hu & Huin).
  destruct (step_guess env (started env new_DiceGame) preset guess
              eq_refl eq_refl eq_refl Hguess)
    as (g2 & L1 & O2 & Q2 & D2 & K2 & M2).
  destruct (step_dice env g2 preset (toString (Z.of_nat i)) ud i O2 Q2 D2 X0)
    as (g3 & L2 & O3 & Q3 & U3 & C3 & K3 & M3).
  { now rewrite P0, index_of_nat. }
  { now rewrite P0, to_Z_of_Z. }
  rewrite Hrest in C3. cbn [hd_error] in C3.
  destruct (step_comp env g3 _ (toString z1) cd O3 Q3 C3 X1 E1)
    as (g4 & L3 & O4 & Q4 & U4 & C4 & K4 & M4).
  rewrite U3 in U4. rewrite C3 in C4.
  destruct (step_user env g4 _ _ (toString z2) ud O4 Q4 U4 X2 E2)
    as (g5 & L4 & P5 & H5 & U5 & C5 & K5 & M5).
  exists g5, ud, cd, u, c. split.
  { unfold main. unfold bind at 1. rewrite startGame_string, Hv.
    cbn [lines]. unfold bind. rewrite L1, L2, L3, L4. reflexivity. }
  split; [exact P5|]. split; [reflexivity|]. split; [reflexivity|].
  split; [congruence|]. split; [congruence|].
  split; [exact Hc|]. split; [exact Hcin|].
  split; [exact Hu|]. split; [exact Huin|].
  split; [|split].
  - rewrite H5, M4, M3, M2. change (math_pos (started env new_DiceGame)) with 0%nat.
    rewrite Hu, Hc. reflexivity.
  - rewrite K5, K4, K3, K2. reflexivity.
  - rewrite M5, M4, M3, M2. reflexivity.
Qed.

Lemma game_outcome_witness :
  validateDiceInput (Some (lit "1,2,3")) new_DiceGame = (Normal true, new_DiceGame)
  /\ (lit "0" = lit "0" \/ lit "0" = lit "1")
  /\ (0 < 3)%nat /\ 0 <= 3 <= 5 /\ 0 <= 2 <= 5
  /\ exists g,
       main sample_env (Some (lit "1,2,3"))
         [lit "0"; toString (Z.of_nat 0); toString 3; toString 2]
       = (Normal tt, g)
       /\ phase g = Done.
Proof.
  split; [reflexivity|]. split; [left; reflexivity|]. split; [lia|].
  split; [lia|]. split; [lia|].
  destruct (game_outcome sample_env (lit "1,2,3") (lit "0") 0 3 2
              eq_refl (or_introl eq_refl) ltac:(lia) ltac:(lia) ltac:(lia))
    as (g & _ & _ & _ & _ & H1 & H2 & _).
  exists g. split; assumption.
Defined.
